(** * The recognition loop of clients/speech/listener.py

    A shallow embedding of [AudioConsumer] (the clip consumer with its
    sleep/awake dispatch, the minimum-duration gate and the STT error
    taxonomy) and of the mute reference counter of [RecognizerLoop],
    together with the properties the specification states about them.

    Conventions.
    - A method of [AudioConsumer] is a computation in the monad [M]: it reads
      and updates the consumer object, appends to a trace of observable
      actions (events emitted, lines printed, calls made to the external
      engines) and either returns a value or raises a Python exception.
    - The external engines (STT backend, hot-word engines) are oracles: what
      the engine answers for a given clip.  Every call is recorded in the
      trace, so that "the engine is not invoked" is a statement about the
      trace.
    - Python [int] is [Z]; the clip duration, a Python [float], is the exact
      quotient in [Q] (see [_audio_length]). *)

From Stdlib Require Import ZArith QArith Lia Ascii String.
From stdpp Require Import base option list strings gmap.

Local Open Scope Z_scope.

(** ** Python strings: [str.lower] and [str.strip] on byte strings *)

Module PyStr.

Definition is_upper (c : ascii) : bool :=
  let n := nat_of_ascii c in (65 <=? n)%nat && (n <=? 90)%nat.

Definition lower_char (c : ascii) : ascii :=
  if is_upper c then ascii_of_nat (nat_of_ascii c + 32) else c.

(** [s.lower()] *)
Fixpoint lower (s : string) : string :=
  match s with
  | EmptyString => EmptyString
  | String c r => String (lower_char c) (lower r)
  end.

(** The characters of [string.whitespace]: tab, newline, vertical tab, form
    feed, carriage return and space. *)
Definition is_space (c : ascii) : bool :=
  let n := nat_of_ascii c in ((9 <=? n)%nat && (n <=? 13)%nat) || (n =? 32)%nat.

Fixpoint lstrip (s : string) : string :=
  match s with
  | EmptyString => EmptyString
  | String c r => if is_space c then lstrip r else s
  end.

Fixpoint rstrip (s : string) : string :=
  match s with
  | EmptyString => EmptyString
  | String c r =>
      match rstrip r with
      | EmptyString => if is_space c then EmptyString else String c EmptyString
      | r' => String c r'
      end
  end.

(** [s.strip()] *)
Definition strip (s : string) : string := rstrip (lstrip s).

(** Truth value of a string: [if s:] *)
Definition truthy (s : string) : bool :=
  match s with EmptyString => false | String _ _ => true end.

End PyStr.

(** ** Python exceptions *)

(** The exception classes the consumer can meet: the built-in ones, those of
    [speech_recognition] (prefix [sr_]), those of [requests], and [Empty] of
    the queue module. *)
Inductive pyclass :=
  | BaseException | SystemExit | KeyboardInterrupt
  | Exception
  | LookupError | IndexError | AttributeError
  | ArithmeticError | ZeroDivisionError
  | IOError
  | Empty
  | sr_RequestError | sr_UnknownValueError
  | RequestException | HTTPError | ConnectionError
  | Timeout | ConnectTimeout | ReadTimeout | SSLError | ProxyError.

Global Instance pyclass_eq_dec : EqDecision pyclass.
Proof. solve_decision. Defined.

(** Direct base classes, as the libraries declare them. *)
Definition bases (c : pyclass) : list pyclass :=
  match c with
  | BaseException => []
  | SystemExit | KeyboardInterrupt => [BaseException]
  | Exception => [BaseException]
  | LookupError | AttributeError | ArithmeticError | IOError => [Exception]
  | IndexError => [LookupError]
  | ZeroDivisionError => [ArithmeticError]
  | Empty => [Exception]
  | sr_RequestError | sr_UnknownValueError => [Exception]
  | RequestException => [IOError]
  | HTTPError | ConnectionError | Timeout => [RequestException]
  | ConnectTimeout => [ConnectionError; Timeout]
  | ReadTimeout => [Timeout]
  | SSLError | ProxyError => [ConnectionError]
  end.

Fixpoint issubclass_upto (depth : nat) (c d : pyclass) : bool :=
  bool_decide (c = d) ||
  match depth with
  | O => false
  | S depth' => existsb (fun b => issubclass_upto depth' b d) (bases c)
  end.

(** [issubclass(c, d)]; no chain of bases is longer than six. *)
Definition issubclass : pyclass -> pyclass -> bool := issubclass_upto 6.

(** [cls.__name__] *)
Definition __name__ (c : pyclass) : string :=
  match c with
  | BaseException => "BaseException" | SystemExit => "SystemExit"
  | KeyboardInterrupt => "KeyboardInterrupt" | Exception => "Exception"
  | LookupError => "LookupError" | IndexError => "IndexError"
  | AttributeError => "AttributeError"
  | ArithmeticError => "ArithmeticError"
  | ZeroDivisionError => "ZeroDivisionError"
  | IOError => "IOError" | Empty => "Empty"
  | sr_RequestError => "RequestError"
  | sr_UnknownValueError => "UnknownValueError"
  | RequestException => "RequestException" | HTTPError => "HTTPError"
  | ConnectionError => "ConnectionError" | Timeout => "Timeout"
  | ConnectTimeout => "ConnectTimeout" | ReadTimeout => "ReadTimeout"
  | SSLError => "SSLError" | ProxyError => "ProxyError"
  end.

(** The HTTP response attached to a [requests] exception. *)
Record Response := { status_code : Z }.

(** An exception object: its class, [str(e)], and the [response] attribute
    ([None] when the exception was built without one). *)
Record exc := {
  __class__ : pyclass;
  __str__ : string;
  response : option Response
}.

Definition isinstance (e : exc) (c : pyclass) : bool :=
  issubclass (__class__ e) c.

(** What a call yields: a value, or a raised exception. *)
Inductive outcome (A : Type) :=
  | Returns (a : A)
  | Raises (e : exc).
Arguments Returns {A} a.
Arguments Raises {A} e.

(** How a block of statements ends inside a function body: with a [return],
    or by running off its end into the statements that follow. *)
Inductive ending (A : Type) :=
  | Return (a : A)
  | FallThrough.
Arguments Return {A} a.
Arguments FallThrough {A}.

(** ** Clips, engines and events *)

(** [AudioData]: one captured clip. *)
Record AudioData := {
  frame_data : list Byte.byte;
  sample_rate : Z;
  sample_width : Z
}.

(** A hot-word engine, as [HotWordFactory.create_hotword] returns it.  The
    factory is outside these sources, so an engine is given by its phrase and
    by what [found_wake_word(frame_data)] answers. *)
Record HotWordEngine := {
  key_phrase : string;
  found_wake_word : list Byte.byte -> bool
}.

(** The STT backend, as [STTFactory.create] returns it.  The factory is
    outside these sources, so a backend is given by what [execute(audio)]
    yields (a string, [None], or an exception) and by its [lang]
    attribute. *)
Record STT := {
  execute : AudioData -> outcome (option string);
  lang : string
}.

(** The events the consumer emits, with their payloads. *)
Inductive event :=
  | wakeword (utterance : string)
  | awoken
  | utterance (utterances : list string) (lang : string)
  | no_internet
  | speech_recognition_unknown
  | speak (utterance : string).

(** The name under which [emitter.emit] sends each of them. *)
Definition event_name (e : event) : string :=
  match e with
  | wakeword _ => "recognizer_loop:wakeword"
  | awoken => "recognizer_loop:awoken"
  | utterance _ _ => "recognizer_loop:utterance"
  | no_internet => "recognizer_loop:no_internet"
  | speech_recognition_unknown => "recognizer_loop:speech.recognition.unknown"
  | speak _ => "speak"
  end.

(** What an observer of the consumer sees. *)
Inductive action :=
  | Emit (e : event)                          (* self.emitter.emit(...) *)
  | Print (line : string)                     (* print(...) *)
  | Call_execute (audio : AudioData)          (* self.stt.execute(audio) *)
  | Call_found_wake_word (frames : list Byte.byte).
                          (* self.wakeup_recognizer.found_wake_word(...) *)

Global Instance event_eq_dec : EqDecision event.
Proof. solve_decision. Defined.

Definition is_utterance (a : action) : bool :=
  match a with Emit (utterance _ _) => true | _ => false end.

Definition is_emit (a : action) : bool :=
  match a with Emit _ => true | _ => false end.

Definition is_call_execute (a : action) : bool :=
  match a with Call_execute _ => true | _ => false end.

(** The events of a trace, in order. *)
Definition events (t : list action) : list event :=
  omap (fun a => match a with Emit e => Some e | _ => None end) t.

(** ** The shared state and the consumer object *)

Record RecognizerLoopState := { running : bool; sleeping : bool }.

(** [AudioConsumer].  [queue] and [state] are the objects shared with the
    producer and the orchestrator: they are stored here once, and what the
    other threads do to them is applied to these fields (see [input]).  The
    queue is listed oldest clip first. *)
Record AudioConsumer := {
  queue : list (option AudioData);
  state : RecognizerLoopState;
  stt : STT;
  wakeup_recognizer : HotWordEngine;
  wakeword_recognizer : HotWordEngine;
  word : string
}.

(** In seconds, the minimum audio size to be sent to remote STT *)
Definition MIN_AUDIO_SIZE : Q := 1 # 2.

(** ** The monad of consumer methods *)

Definition M (A : Type) : Type :=
  AudioConsumer -> outcome A * AudioConsumer * list action.

Global Instance M_ret : MRet M := fun A a self => (Returns a, self, []).

Global Instance M_bind : MBind M := fun A B k m self =>
  match m self with
  | (Returns a, self', t) =>
      let '(r, self'', t') := k a self' in (r, self'', t ++ t')
  | (Raises e, self', t) => (Raises e, self', t)
  end.

(** [raise e] *)
Definition raise {A} (e : exc) : M A := fun self => (Raises e, self, []).

(** [try: body except ... as e: handler e].  An exception raised by the
    handler itself is not caught. *)
Definition try_except {A} (body : M A) (handler : exc -> M A) : M A :=
  fun self =>
    match body self with
    | (Returns a, self', t) => (Returns a, self', t)
    | (Raises e, self', t) =>
        let '(r, self'', t') := handler e self' in (r, self'', t ++ t')
    end.

Definition act (a : action) : M unit := fun self => (Returns tt, self, [a]).
Definition emit (e : event) : M unit := act (Emit e).
Definition print (line : string) : M unit := act (Print line).

Definition get {A} (field : AudioConsumer -> A) : M A :=
  fun self => (Returns (field self), self, []).

Definition set_sleeping (b : bool) : M unit := fun self =>
  (Returns tt,
   {| queue := queue self;
      state := {| running := running (state self); sleeping := b |};
      stt := stt self;
      wakeup_recognizer := wakeup_recognizer self;
      wakeword_recognizer := wakeword_recognizer self;
      word := word self |},
   []).

Definition set_word (w : string) : AudioConsumer -> AudioConsumer := fun self =>
  {| queue := queue self; state := state self; stt := stt self;
     wakeup_recognizer := wakeup_recognizer self;
     wakeword_recognizer := wakeword_recognizer self;
     word := w |}.

Definition set_queue (q : list (option AudioData)) :
  AudioConsumer -> AudioConsumer := fun self =>
  {| queue := q; state := state self; stt := stt self;
     wakeup_recognizer := wakeup_recognizer self;
     wakeword_recognizer := wakeword_recognizer self;
     word := word self |}.

Definition set_state (st : RecognizerLoopState) :
  AudioConsumer -> AudioConsumer := fun self =>
  {| queue := queue self; state := st; stt := stt self;
     wakeup_recognizer := wakeup_recognizer self;
     wakeword_recognizer := wakeword_recognizer self;
     word := word self |}.

(** [self.queue.get(timeout=0.5)]: the oldest clip, or [Empty] when none
    arrived within the timeout. *)
Definition queue_get : M (option AudioData) := fun self =>
  match queue self with
  | [] => (Raises {| __class__ := Empty; __str__ := ""; response := None |},
           self, [])
  | audio :: q => (Returns audio, set_queue q self, [])
  end.

(** [self.stt.execute(audio)] *)
Definition call_execute (audio : AudioData) : M (option string) := fun self =>
  (execute (stt self) audio, self, [Call_execute audio]).

(** [self.wakeup_recognizer.found_wake_word(frames)] *)
Definition call_found_wake_word (frames : list Byte.byte) : M bool :=
  fun self =>
    (Returns (found_wake_word (wakeup_recognizer self) frames), self,
     [Call_found_wake_word frames]).

(** Attribute access on [None] raises [AttributeError]. *)
Definition attribute_error (what : string) : exc :=
  {| __class__ := AttributeError;
     __str__ := "'NoneType' object has no attribute '" +:+ what +:+ "'";
     response := None |}.

(** [v.lower().strip()] *)
Definition lower_strip (v : option string) : M string :=
  match v with
  | Some s => mret (PyStr.strip (PyStr.lower s))
  | None => raise (attribute_error "lower")
  end.

(** [e.response.status_code] *)
Definition response_status_code (e : exc) : M Z :=
  match response e with
  | Some r => mret (status_code r)
  | None => raise (attribute_error "status_code")
  end.

(** ** The methods of [AudioConsumer] *)

(** [AudioConsumer.__init__]: the active word starts as the key phrase of the
    wake-word engine. *)
Definition __init__ (st : RecognizerLoopState) (q : list (option AudioData))
    (stt0 : STT) (wakeup wakeword_rec : HotWordEngine) : AudioConsumer :=
  {| queue := q; state := st; stt := stt0;
     wakeup_recognizer := wakeup;
     wakeword_recognizer := wakeword_rec;
     word := key_phrase wakeword_rec |}.

(** [_set_word], the handler of the inbound [recognizer_loop:hotword] event:
    [self.word = event.get("hotword", self.wakeword_recognizer.key_phrase)] *)
Definition _set_word (ev : gmap string string) (self : AudioConsumer) :
    AudioConsumer :=
  set_word (default (key_phrase (wakeword_recognizer self)) (ev !! "hotword"))
           self.

(** [wake_up] *)
Definition wake_up (audio : AudioData) : M unit :=
  found ← call_found_wake_word (frame_data audio);
  if (found : bool) then
    set_sleeping false;;
    emit awoken
  else mret tt.

(** [_audio_length]:
    [float(len(audio.frame_data)) / (audio.sample_rate * audio.sample_width)].
    The quotient is kept exact.  For a clip of fewer than 2^53 bytes and a
    product below 2^53 the Python float compares with 0.5 as the exact
    quotient does: both conversions are exact, the division is correctly
    rounded, and a quotient below 1/2 is below it by more than 2^-54. *)
Definition _audio_length (audio : AudioData) : M Q :=
  let d := sample_rate audio * sample_width audio in
  if d =? 0 then
    raise {| __class__ := ZeroDivisionError;
             __str__ := "float division by zero"; response := None |}
  else mret (inject_Z (Z.of_nat (length (frame_data audio))) / inject_Z d)%Q.

(** [a < b] on floats *)
Definition Qltb (a b : Q) : bool := negb (Qle_bool b a).

(** The [except] clauses of [transcribe], tried in the order they are
    written; an exception none of them matches propagates. *)
Definition transcribe_handler (e : exc) : M (ending (option string)) :=
  if isinstance e sr_RequestError then
    print ("Could not request Speech Recognition " +:+ __str__ e);;
    mret FallThrough
  else if isinstance e ConnectionError then
    print ("Connection Error: " +:+ __str__ e);;
    emit no_internet;;
    mret FallThrough
  else if isinstance e HTTPError then
    code ← response_status_code e;
    if code =? 401 then
      print "Access Denied at mycroft.ai";;
      mret (Return (Some "pair my device"))
    else
      print (__name__ (__class__ e) +:+ ": " +:+ __str__ e);;
      mret FallThrough
  else if isinstance e RequestException then
    print (__name__ (__class__ e) +:+ ": " +:+ __str__ e);;
    mret FallThrough
  else if isinstance e Exception then
    emit speech_recognition_unknown;;
    (if isinstance e IndexError
     then print "no words were transcribed"
     else print (__str__ e));;
    print "Speech Recognition could not understand audio";;
    mret (Return None)
  else raise e.

(** [transcribe] *)
Definition transcribe (audio : AudioData) : M (option string) :=
  r ← try_except
        (v ← call_execute audio;
         text ← lower_strip v;
         print ("STT: " +:+ text);;
         mret (Return (Some text)))
        transcribe_handler;
  match r with
  | Return v => mret v
  | FallThrough =>
      emit (speak "not connected to the internet");;
      mret None
  end.

(** [process] *)
Definition process (audio : AudioData) : M unit :=
  w ← get word;
  emit (wakeword w);;
  len ← _audio_length audio;
  if Qltb len MIN_AUDIO_SIZE then
    print "Audio too short to be processed"
  else
    transcription ← transcribe audio;
    match transcription with
    | Some text =>
        if PyStr.truthy text then
          l ← get (fun self => lang (stt self));
          emit (utterance [text] l)
        else mret tt
    | None => mret tt
    end.

(** [read]: one iteration of the consumer loop. *)
Definition read : M unit :=
  got ← try_except
          (audio ← queue_get; mret (Some audio))
          (fun e => if isinstance e Empty then mret None else raise e);
  match got with
  | None => mret tt                       (* except Empty: return *)
  | Some None => mret tt                  (* if audio is None: return *)
  | Some (Some audio) =>
      asleep ← get (fun self => sleeping (state self));
      if (asleep : bool) then wake_up audio else process audio
  end.

(** [run], cut after [n] iterations of [while self.state.running]. *)
Fixpoint run (n : nat) : M unit :=
  match n with
  | O => mret tt
  | S n' =>
      going ← get (fun self => running (state self));
      if (going : bool) then read;; run n' else mret tt
  end.

(** ** The consumer among the other threads *)

(** What happens around the consumer, one step at a time: the emitter delivers
    an inbound [recognizer_loop:hotword] event to [_set_word], the producer
    puts a clip on the queue, the orchestrator calls [sleep()] or [awaken()],
    or the consumer thread runs one iteration of its loop. *)
Inductive input :=
  | hotword (ev : gmap string string)
  | put (audio : option AudioData)
  | sleep
  | awaken
  | iteration.

(** The consumer object, whether its thread is still running, and everything
    observed so far. *)
Record world := {
  consumer : AudioConsumer;
  alive : bool;
  seen : list action
}.

Definition step (w : world) (i : input) : world :=
  let c := consumer w in
  match i with
  | hotword ev =>
      {| consumer := _set_word ev c; alive := alive w; seen := seen w |}
  | put audio =>
      {| consumer := set_queue (queue c ++ [audio]) c;
         alive := alive w; seen := seen w |}
  | sleep =>
      {| consumer :=
           set_state {| running := running (state c); sleeping := true |} c;
         alive := alive w; seen := seen w |}
  | awaken =>
      {| consumer :=
           set_state {| running := running (state c); sleeping := false |} c;
         alive := alive w; seen := seen w |}
  | iteration =>
      if alive w then
        if running (state c) then
          match read c with
          | (Returns _, c', t) =>
              {| consumer := c'; alive := true; seen := seen w ++ t |}
          | (Raises _, c', t) =>
              {| consumer := c'; alive := false; seen := seen w ++ t |}
          end
        else {| consumer := c; alive := false; seen := seen w |}
      else w
  end.

Definition exec (w : world) (ins : list input) : world := fold_left step ins w.

(** The world right after [start_async] built the consumer. *)
Definition started (c : AudioConsumer) : world :=
  {| consumer := c; alive := true; seen := [] |}.

(** The payload of the latest [hotword] event among the inputs, if any. *)
Fixpoint last_hotword (ins : list input) : option (gmap string string) :=
  match ins with
  | [] => None
  | i :: rest =>
      match last_hotword rest with
      | Some ev => Some ev
      | None => match i with hotword ev => Some ev | _ => None end
      end
  end.

(** The wake phrase in force after the inputs [ins]: what the latest
    [hotword] event set, or the key phrase of the wake-word engine when there
    was none. *)
Definition active_phrase (wakeword_rec : HotWordEngine) (ins : list input) :
    string :=
  match last_hotword ins with
  | Some ev => default (key_phrase wakeword_rec) (ev !! "hotword")
  | None => key_phrase wakeword_rec
  end.

(** What no method of the consumer changes: the active word and the three
    engines. *)
Definition same_config (a b : AudioConsumer) : Prop :=
  word b = word a /\ stt b = stt a /\
  wakeup_recognizer b = wakeup_recognizer a /\
  wakeword_recognizer b = wakeword_recognizer a.

Definition keeps_config {A} (m : M A) : Prop :=
  forall self, same_config self (m self).1.2.

(** ** The mute counter of [RecognizerLoop] *)

Module RecognizerLoop.

(** The operations a caller invokes on the microphone. *)
Inductive mic_call := Mic_mute | Mic_unmute.

(** Modelled from the spec: the class [MutableMicrophone] of
    clients/speech/mic.py, which is not among the sources.  The spec has
    mute and unmute delegated to the microphone capability and [is_muted()]
    reporting it: [mute()] sets the flag, [unmute()] clears it.  Every call is
    logged, latest last. *)
Record MutableMicrophone := { muted : bool; calls : list mic_call }.

Definition mic_new (mute : bool) : MutableMicrophone :=
  {| muted := mute; calls := [] |}.
Definition mic_mute (m : MutableMicrophone) : MutableMicrophone :=
  {| muted := true; calls := calls m ++ [Mic_mute] |}.
Definition mic_unmute (m : MutableMicrophone) : MutableMicrophone :=
  {| muted := false; calls := calls m ++ [Mic_unmute] |}.

(** The fields of [RecognizerLoop] that muting touches.  [microphone] is
    [None] when no microphone object is set. *)
Record t := {
  mute_calls : Z;
  microphone : option MutableMicrophone
}.

(** [__init__]: [self.mute_calls = 0], then [_load_config] builds
    [MutableMicrophone(device_index, rate, mute=self.mute_calls > 0)]. *)
Definition init : t :=
  let mute_calls0 := 0 in
  {| mute_calls := mute_calls0;
     microphone := Some (mic_new (0 <? mute_calls0)) |}.

(** [mute] *)
Definition mute (self : t) : t :=
  {| mute_calls := mute_calls self + 1;
     microphone := mic_mute <$> microphone self |}.

(** [unmute] *)
Definition unmute (self : t) : t :=
  let self1 :=
    if 0 <? mute_calls self
    then {| mute_calls := mute_calls self - 1;
            microphone := microphone self |}
    else self in
  if mute_calls self1 <=? 0 then
    match microphone self1 with
    | Some m => {| mute_calls := 0; microphone := Some (mic_unmute m) |}
    | None => self1
    end
  else self1.

(** [force_unmute] *)
Definition force_unmute (self : t) : t :=
  unmute {| mute_calls := 0; microphone := microphone self |}.

(** [is_muted] *)
Definition is_muted (self : t) : bool :=
  match microphone self with
  | Some m => muted m
  | None => true  (* consider 'no mic' muted *)
  end.

(** A caller's request. *)
Inductive request := Mute | Unmute | Force_unmute.

Definition serve (self : t) (r : request) : t :=
  match r with
  | Mute => mute self
  | Unmute => unmute self
  | Force_unmute => force_unmute self
  end.

Definition serve_all (self : t) (rs : list request) : t :=
  fold_left serve rs self.

End RecognizerLoop.

(** The failures after which [transcribe] runs off the end of its [try]
    statement: a recognition-engine request error, a connection error, an
    HTTP error whose response carries a status other than 401, or another
    request exception. *)
Definition stt_unavailable (e : exc) : bool :=
  isinstance e sr_RequestError
  || isinstance e ConnectionError
  || (isinstance e HTTPError &&
      match response e with
      | Some r => negb (status_code r =? 401)
      | None => false
      end)
  || (isinstance e RequestException && negb (isinstance e HTTPError)).

(** ** What a trace and a run tell about the clips *)

(** The clips handed to the STT backend, in order. *)
Definition stt_calls (t : list action) : list AudioData :=
  omap (fun a => match a with Call_execute x => Some x | _ => None end) t.

(** The clips waiting in a queue, in order ([None] entries carry none). *)
Definition clips (q : list (option AudioData)) : list AudioData :=
  omap id q.

(** A method keeps the relation [R] between the object before and after. *)
Definition preserves (R : AudioConsumer -> AudioConsumer -> Prop) {A}
    (m : M A) : Prop :=
  forall self, R self (m self).1.2.

(** The flags as the consumer may leave them: [running] untouched, and an
    awake consumer still awake. *)
Definition flags_kept (a b : AudioConsumer) : Prop :=
  running (state b) = running (state a) /\
  (sleeping (state a) = false -> sleeping (state b) = false).

(** The queue untouched. *)
Definition queue_kept (a b : AudioConsumer) : Prop := queue b = queue a.


(** A text as [transcribe] hands it on: not empty, with no white space
    around it and no upper-case letter in it. *)
Definition normalized (text : string) : Prop :=
  text <> "" /\ PyStr.strip text = text /\ PyStr.lower text = text.

(** A string of white space only (or empty). *)
Definition blank (s : string) : bool :=
  forallb PyStr.is_space (list_ascii_of_string s).

(** ** The orchestrator: configuration, engines, reload *)

Module Loop.

(** The values a configuration holds. *)
Inductive pyval :=
  | PNone
  | PBool (b : bool)
  | PInt (n : Z)
  | PFloat (q : Q)
  | PStr (s : string).

(** Truth value: [if v:] *)
Definition truth (v : pyval) : bool :=
  match v with
  | PNone => false
  | PBool b => b
  | PInt n => negb (n =? 0)
  | PFloat q => negb (Qeq_bool q 0)
  | PStr s => PyStr.truthy s
  end.

(** [v is None] *)
Definition is_None (v : pyval) : bool :=
  match v with PNone => true | _ => false end.

(** [d.get(key)]: [None] for a missing key. *)
Definition dict_get (d : gmap string pyval) (key : string) : pyval :=
  default PNone (d !! key).

(** The ["listener"] section, by the keys the loop reads for its engines.
    [wake_word] and [stand_up_word] are strings when present; [phonemes] and
    [threshold] are what [config.get(...)] returns, [None] when absent.  (The
    keys read only to build the microphone are left to [MutableMicrophone].) *)
Record listener_config := {
  wake_word : option string;
  stand_up_word : option string;
  phonemes : pyval;
  threshold : pyval
}.

(** The configuration: [lang] as [config.get('lang')] returns it, the
    listener section, and the ["hotwords"] table when there is one, from word
    to that word's settings. *)
Record config := {
  lang : pyval;
  listener : listener_config;
  hotwords : option (gmap string (gmap string pyval))
}.

(** The module-level default [conf]: it has a listener section with the two
    phrases, and neither [lang] nor [hotwords]. *)
Definition conf : config :=
  {| lang := PNone;
     listener := {| wake_word := Some "hey mycroft";
                    stand_up_word := Some "wake up";
                    phonemes := PNone;
                    threshold := PNone |};
     hotwords := None |}.

(** An entry of [hot_word_engines]:
    [[engine, ding, utterance, listen, engine_type]]. *)
Record hot_word := {
  hw_engine : HotWordEngine;
  hw_ding : pyval;
  hw_utterance : pyval;
  hw_listen : pyval;
  hw_engine_type : pyval
}.

(** The one failure of the configuration code: a missing key. *)
Inductive config_error := KeyError (key : string).

(** The loop object.  [muting] holds [mute_calls] and [microphone]. *)
Record t := {
  muting : RecognizerLoop.t;
  config_core : config;
  wakeword_recognizer : HotWordEngine;
  wakeup_recognizer : HotWordEngine;
  hot_word_engines : gmap string hot_word;
  state : RecognizerLoopState
}.

Section Factory.

(** [HotWordFactory.create_hotword(word, config, lang)], whose module is
    outside these sources: taken as a parameter. *)
Variable create_hotword :
  string -> option (gmap string (gmap string pyval)) -> pyval -> HotWordEngine.

(** [create_wake_word_recognizer].  The table it edits is the one stored in
    the configuration when there is one (the same dict object), a fresh
    [{word: {}}] otherwise; the result is the engine together with the
    configuration as the call leaves it. *)
Definition create_wake_word_recognizer (cc : config) : HotWordEngine * config :=
  let word := default "hey mycroft" (wake_word (listener cc)) in
  let phonemes0 := phonemes (listener cc) in
  let thresh := threshold (listener cc) in
  let table := default {[ word := ∅ ]} (hotwords cc) in
  let table :=
    match table !! word with
    | None => <[ word := {[ "module" := PStr "pocketsphinx" ]} ]> table
    | Some _ => table
    end in
  let table :=
    if truth phonemes0
    then alter (fun d => <[ "phonemes" := phonemes0 ]> d) word table
    else table in
  let table :=
    if truth thresh
    then alter (fun d => <[ "threshold" := thresh ]> d) word table
    else table in
  let arg := if is_None phonemes0 || is_None thresh then None else Some table in
  (create_hotword word arg (lang cc),
   {| lang := lang cc; listener := listener cc;
      hotwords := match hotwords cc with
                  | Some _ => Some table
                  | None => None
                  end |}).

(** [create_wakeup_recognizer] *)
Definition create_wakeup_recognizer (cc : config) : HotWordEngine :=
  let word := default "wake up" (stand_up_word (listener cc)) in
  create_hotword word None (lang cc).

(** The test that makes the loop of [create_hot_word_engines] skip a word. *)
Definition skipped (wakeup wakeword_rec : HotWordEngine) (word : string)
    (data : gmap string pyval) : bool :=
  String.eqb word (key_phrase wakeup)
  || String.eqb word (key_phrase wakeword_rec)
  || negb (truth (default (PBool false) (data !! "active"))).

(** One pass of the body of the [for] loop. *)
Definition engine_step (lang0 : pyval) (wakeup wakeword_rec : HotWordEngine)
    (acc : gmap string hot_word) (item : string * gmap string pyval) :
    gmap string hot_word + config_error :=
  let '(word, data) := item in
  if skipped wakeup wakeword_rec word data then inl acc
  else
    match data !! "module" with
    | None => inr (KeyError "module")
    | Some engine_type =>
        inl (<[ word := {| hw_engine := create_hotword word None lang0;
                           hw_ding := dict_get data "sound";
                           hw_utterance := dict_get data "utterance";
                           hw_listen := default (PBool false) (data !! "listen");
                           hw_engine_type := engine_type |} ]> acc)
    end.

(** [create_hot_word_engines], over the items of the table in the order the
    dict yields them: the engines registered, and the error that stopped the
    loop if one did. *)
Fixpoint create_hot_word_engines (lang0 : pyval)
    (wakeup wakeword_rec : HotWordEngine)
    (items : list (string * gmap string pyval)) (acc : gmap string hot_word) :
    gmap string hot_word * option config_error :=
  match items with
  | [] => (acc, None)
  | item :: rest =>
      match engine_step lang0 wakeup wakeword_rec acc item with
      | inl acc' => create_hot_word_engines lang0 wakeup wakeword_rec rest acc'
      | inr err => (acc, Some err)
      end
  end.

(** [_load_config(config)], given the order [items_of] in which a table is
    iterated.  The fields are assigned one after the other, so a failure in
    [create_hot_word_engines] leaves the earlier assignments in place. *)
Definition _load_config
    (items_of : gmap string (gmap string pyval) ->
                list (string * gmap string pyval))
    (given : option config) (self : t) : t * option config_error :=
  let config0 := default conf given in
  let mic := RecognizerLoop.mic_new (0 <? RecognizerLoop.mute_calls (muting self)) in
  let muting' := {| RecognizerLoop.mute_calls := RecognizerLoop.mute_calls (muting self);
                    RecognizerLoop.microphone := Some mic |} in
  let '(wakeword_rec, config1) := create_wake_word_recognizer config0 in
  let wakeup := create_wakeup_recognizer config1 in
  let '(engines, err) :=
    create_hot_word_engines (lang config1) wakeup wakeword_rec
      (items_of (default ∅ (hotwords config1))) ∅ in
  match err with
  | Some e =>
      ({| muting := muting'; config_core := config1;
          wakeword_recognizer := wakeword_rec; wakeup_recognizer := wakeup;
          hot_word_engines := engines; state := state self |}, Some e)
  | None =>
      ({| muting := muting'; config_core := config1;
          wakeword_recognizer := wakeword_rec; wakeup_recognizer := wakeup;
          hot_word_engines := engines;
          state := {| running := false; sleeping := false |} |}, None)
  end.

(** The loop object before [__init__] has assigned anything but
    [mute_calls = 0]; the other fields are placeholders that [_load_config]
    overwrites. *)
Definition unset : t :=
  let nothing := {| key_phrase := ""; found_wake_word := fun _ => false |} in
  {| muting := {| RecognizerLoop.mute_calls := 0;
                  RecognizerLoop.microphone := None |};
     config_core := conf;
     wakeword_recognizer := nothing; wakeup_recognizer := nothing;
     hot_word_engines := ∅;
     state := {| running := false; sleeping := false |} |}.

(** [RecognizerLoop.__init__(config)] *)
Definition __init__
    (items_of : gmap string (gmap string pyval) ->
                list (string * gmap string pyval))
    (given : option config) : t * option config_error :=
  _load_config items_of given unset.

Definition with_state (st : RecognizerLoopState) (self : t) : t :=
  {| muting := muting self; config_core := config_core self;
     wakeword_recognizer := wakeword_recognizer self;
     wakeup_recognizer := wakeup_recognizer self;
     hot_word_engines := hot_word_engines self; state := st |}.

Definition with_muting (m : RecognizerLoop.t) (self : t) : t :=
  {| muting := m; config_core := config_core self;
     wakeword_recognizer := wakeword_recognizer self;
     wakeup_recognizer := wakeup_recognizer self;
     hot_word_engines := hot_word_engines self; state := state self |}.

(** [start_async], as far as the loop object goes: [running] is set. *)
Definition start_async (self : t) : t :=
  with_state {| running := true; sleeping := sleeping (state self) |} self.

(** [stop]: [running] is cleared (and the threads are joined). *)
Definition stop (self : t) : t :=
  with_state {| running := false; sleeping := sleeping (state self) |} self.

(** [sleep] and [awaken] *)
Definition sleep (self : t) : t :=
  with_state {| running := running (state self); sleeping := true |} self.
Definition awaken (self : t) : t :=
  with_state {| running := running (state self); sleeping := false |} self.

(** [reload]: [stop()], [_load_config()] with no argument, [start_async()].
    An error of [_load_config] would leave the loop stopped. *)
Definition reload
    (items_of : gmap string (gmap string pyval) ->
                list (string * gmap string pyval))
    (self : t) : t * option config_error :=
  match _load_config items_of None (stop self) with
  | (self', None) => (start_async self', None)
  | (self', Some e) => (self', Some e)
  end.

(** The calls a user of the loop makes once it is built. *)
Inductive call :=
  | Mute | Unmute | Force_unmute | Sleep | Awaken | Stop | Start | Reload.

Definition perform
    (items_of : gmap string (gmap string pyval) ->
                list (string * gmap string pyval))
    (self : t) (c : call) : t :=
  match c with
  | Mute => with_muting (RecognizerLoop.mute (muting self)) self
  | Unmute => with_muting (RecognizerLoop.unmute (muting self)) self
  | Force_unmute => with_muting (RecognizerLoop.force_unmute (muting self)) self
  | Sleep => sleep self
  | Awaken => awaken self
  | Stop => stop self
  | Start => start_async self
  | Reload => (reload items_of self).1
  end.

(** What [create_hot_word_engines] registers for a word with settings
    [data], if anything. *)
Definition entry_of (lang0 : pyval) (wakeup wakeword_rec : HotWordEngine)
    (word : string) (data : gmap string pyval) : option hot_word :=
  if skipped wakeup wakeword_rec word data then None
  else
    engine_type ← data !! "module";
    Some {| hw_engine := create_hotword word None lang0;
            hw_ding := dict_get data "sound";
            hw_utterance := dict_get data "utterance";
            hw_listen := default (PBool false) (data !! "listen");
            hw_engine_type := engine_type |}.

End Factory.

(** The microphone of a loop is muted exactly when the depth is positive, and
    the depth is not negative. *)
Definition mute_consistent (l : t) : Prop :=
  exists m, RecognizerLoop.microphone (muting l) = Some m /\
    RecognizerLoop.muted m = (0 <? RecognizerLoop.mute_calls (muting l)) /\
    0 <= RecognizerLoop.mute_calls (muting l).

End Loop.

(** A sample configuration with a hot-word table. *)
Module SampleConfig.
Import Loop.

Definition factory (word : string)
    (table : option (gmap string (gmap string pyval))) (lang0 : pyval) :
    HotWordEngine :=
  {| key_phrase := word; found_wake_word := fun _ => false |}.

Definition table : gmap string (gmap string pyval) :=
  {[ "hey mycroft" := {[ "module" := PStr "pocketsphinx";
                          "active" := PBool true ]};
     "thank you" := {[ "module" := PStr "snowboy"; "active" := PBool true;
                       "sound" := PStr "ding.wav" ]};
     "good night" := {[ "module" := PStr "snowboy" ]} ]}.

Definition cc : config :=
  {| lang := PStr "en-us";
     listener := {| wake_word := Some "hey mycroft";
                    stand_up_word := Some "wake up";
                    phonemes := PStr "HH EY . M AY K R AO F T";
                    threshold := PFloat (1 # 10) |};
     hotwords := Some table |}.

End SampleConfig.

(** The clips the producer put on the queue, among the inputs. *)
Definition puts (ins : list input) : list (option AudioData) :=
  omap (fun i => match i with put audio => Some audio | _ => None end) ins.

(** ** The producer *)

Module AudioProducer.

(** What an observer of the producer sees. *)
Inductive action :=
  | Mic_enter                         (* with self.mic as source: *)
  | Adjust_for_ambient_noise          (* recognizer.adjust_for_ambient_noise *)
  | Listen                            (* recognizer.listen(source, emitter) *)
  | Queue_put (audio : option AudioData)        (* self.queue.put(audio) *)
  | Emit_ioerror (e : exc)  (* emitter.emit("recognizer_loop:ioerror", e) *)
  | Mic_exit.                         (* leaving the with block *)

(** The [while self.state.running] loop.  [heard] lists what [listen] yields
    at each pass made while [running] is true; the list ends where the flag
    was found false.  An [IOError] is reported and the loop goes on; any
    other exception leaves the loop. *)
Fixpoint loop (heard : list (outcome (option AudioData))) :
    list action * option exc :=
  match heard with
  | [] => ([], None)
  | Returns audio :: rest =>
      let '(t, r) := loop rest in (Listen :: Queue_put audio :: t, r)
  | Raises e :: rest =>
      if isinstance e IOError
      then let '(t, r) := loop rest in (Listen :: Emit_ioerror e :: t, r)
      else ([Listen], Some e)
  end.

(** [run]: the loop inside the [with] block, which releases the microphone
    however the loop ends. *)
Definition run (heard : list (outcome (option AudioData))) :
    list action * option exc :=
  let '(t, r) := loop heard in
  (Mic_enter :: Adjust_for_ambient_noise :: t ++ [Mic_exit], r).

(** The clips queued and the errors reported, in order. *)
Definition queued (t : list action) : list (option AudioData) :=
  omap (fun a => match a with Queue_put x => Some x | _ => None end) t.
Definition reported (t : list action) : list exc :=
  omap (fun a => match a with Emit_ioerror e => Some e | _ => None end) t.

(** What was heard up to the first exception that is not an [IOError]. *)
Fixpoint survived (heard : list (outcome (option AudioData))) :
    list (outcome (option AudioData)) :=
  match heard with
  | [] => []
  | Returns audio :: rest => Returns audio :: survived rest
  | Raises e :: rest =>
      if isinstance e IOError then Raises e :: survived rest else []
  end.

End AudioProducer.

(** ** The Twitch bridge: bridges/twitch_bridge.py *)

Module Twitch.

(** [s.split(sep)] for a separator of one character. *)
Fixpoint split_on (sep : ascii) (s : string) : list string :=
  match s with
  | EmptyString => [EmptyString]
  | String c r =>
      if Ascii.eqb c sep then EmptyString :: split_on sep r
      else match split_on sep r with
           | h :: t => String c h :: t
           | [] => [String c EmptyString]
           end
  end.

(** [needle in hay] *)
Fixpoint contains (needle hay : string) : bool :=
  String.prefix needle hay ||
  match hay with
  | EmptyString => false
  | String _ r => contains needle r
  end.

(** [s.replace(old, new)] for a non-empty [old]: the occurrences are taken
    from the left and do not overlap.  [skip] counts the characters of an
    occurrence still to pass over. *)
Fixpoint replace_from (old new : string) (skip : nat) (s : string) : string :=
  match s with
  | EmptyString => EmptyString
  | String c r =>
      match skip with
      | S k => replace_from old new k r
      | O =>
          if String.prefix old s
          then new +:+ replace_from old new (String.length old - 1) r
          else String c (replace_from old new 0 r)
      end
  end.

Definition replace (old new s : string) : string := replace_from old new 0 s.

(** [s[:len(s) - 1]] *)
Fixpoint drop_last (s : string) : string :=
  match s with
  | EmptyString => EmptyString
  | String c EmptyString => EmptyString
  | String c r => String c (drop_last r)
  end.

Definition NICK : string := "jarbasai".
Definition CHANNELNAME : string := "jarbasai".
Definition CR : ascii := ascii_of_nat 13.
Definition LF : ascii := ascii_of_nat 10.
Definition CRLF : string := String CR (String LF EmptyString).

(** What the reading thread does to the outside. *)
Inductive action :=
  | Socket_send (data : string)               (* self.s.send(data) *)
  | Print_message (message : string)          (* print message *)
  | Send_message (utterance user : string).
      (* self.sendMessage(json.dumps(msg), False), where msg carries
         utterances [utterance], lang "en-us", type
         "recognizer_loop:utterance" and, in its context, the user *)

Definition index_error (what : string) : exc :=
  {| __class__ := IndexError; __str__ := what +:+ " index out of range";
     response := None |}.

(** The body of [for line in temp]: the new value of [MODT], or the
    exception that ends the thread, and what was done. *)
Definition handle_line (MODT : bool) (line : string) :
    outcome bool * list action :=
  match line with
  | EmptyString => (Raises (index_error "string"), [])        (* line[0] *)
  | String c0 rest =>
      if String.eqb (String c0 EmptyString) "PING" then
        match rest with
        | String c1 _ =>
            (Returns MODT,
             [Socket_send ("PONG " +:+ String c1 EmptyString +:+ CRLF)])
        | EmptyString => (Raises (index_error "string"), [])  (* line[1] *)
        end
      else
        let parts := split_on ":" line in
        match nth_error parts 1 with
        | None => (Raises (index_error "list"), [])           (* parts[1] *)
        | Some part1 =>
            if negb (contains "QUIT" part1) && negb (contains "JOIN" part1)
               && negb (contains "PART" part1)
            then
              let message :=
                match nth_error parts 2 with
                | Some part2 => drop_last part2
                | None => EmptyString                         (* except: *)
                end in
              let username := hd EmptyString (split_on "!" part1) in
              let sent :=
                if contains ("@" +:+ NICK) message then
                  if MODT
                  then [Send_message (replace ("@" +:+ NICK) "" message)
                          username]
                  else []
                else [] in
              (Returns (MODT || existsb (contains "End of /NAMES list") parts),
               Print_message message :: sent)
            else (Returns MODT, [])
        end
  end.

(** [for line in temp] *)
Fixpoint handle_lines (MODT : bool) (lines : list string) :
    outcome bool * list action :=
  match lines with
  | [] => (Returns MODT, [])
  | line :: rest =>
      match handle_line MODT line with
      | (Returns m, t) =>
          let '(r, t') := handle_lines m rest in (r, t ++ t')
      | (Raises e, t) => (Raises e, t)
      end
  end.

(** [twitch_loop], over what the successive [recv] calls return: the buffer
    and [MODT] it has reached, or the exception that ended it. *)
Fixpoint twitch_loop (readbuffer : string) (MODT : bool)
    (received : list string) : outcome (string * bool) * list action :=
  match received with
  | [] => (Returns (readbuffer, MODT), [])
  | chunk :: rest =>
      let temp := split_on LF (readbuffer +:+ chunk) in
      match handle_lines MODT (removelast temp) with
      | (Returns m, t) =>
          let '(r, t') := twitch_loop (List.last temp EmptyString) m rest in
          (r, t ++ t')
      | (Raises e, t) => (Raises e, t)
      end
  end.

Definition is_socket_send (a : action) : bool :=
  match a with Socket_send _ => true | _ => false end.

Definition is_send_message (a : action) : bool :=
  match a with Send_message _ _ => true | _ => false end.

End Twitch.

(** ** Sample objects, used to exercise the statements below *)

Module Sample.

(** A clip of [n] zero bytes at 8 samples per second, 2 bytes per sample:
    16 bytes make one second. *)
Definition clip (n : nat) : AudioData :=
  {| frame_data := repeat Byte.x00 n; sample_rate := 8; sample_width := 2 |}.

Definition engine (phrase : string) (answer : bool) : HotWordEngine :=
  {| key_phrase := phrase; found_wake_word := fun _ => answer |}.

Definition backend (o : outcome (option string)) : STT :=
  {| execute := fun _ => o; lang := "en-us" |}.

Definition error (c : pyclass) (r : option Response) : exc :=
  {| __class__ := c; __str__ := "backend failure"; response := r |}.

(** A running consumer: asleep or not, with the given queue, STT answer and
    stand-up engine answer. *)
Definition a_consumer (asleep : bool) (q : list (option AudioData))
    (o : outcome (option string)) (stand_up : bool) : AudioConsumer :=
  __init__ {| running := true; sleeping := asleep |} q (backend o)
    (engine "wake up" stand_up) (engine "hey mycroft" true).

End Sample.

(** * Properties *)

(** ** Evaluating the methods *)

Example lower_strip_example :
  PyStr.strip (PyStr.lower "  Hey Mycroft, WAKE up  ") = "hey mycroft, wake up".
Proof. reflexivity. Qed.

Example strip_blank_is_falsy : PyStr.truthy (PyStr.strip "   ") = false.
Proof. reflexivity. Qed.

Example connect_timeout_is_both :
  issubclass ConnectTimeout ConnectionError = true /\
  issubclass ConnectTimeout Timeout = true /\
  issubclass ConnectTimeout HTTPError = false.
Proof. repeat split. Qed.

(** With a clip at the head of the queue, [read] takes it off and hands it to
    [wake_up] or to [process]. *)
Lemma read_clip (self : AudioConsumer) audio q :
  queue self = Some audio :: q ->
  read self =
    (if sleeping (state self) then wake_up audio else process audio)
      (set_queue q self).
Proof.
  intros Hq.
  unfold read, try_except, queue_get, mbind, M_bind, mret, M_ret, get.
  rewrite Hq. cbn.
  destruct (sleeping (state self)).
  - destruct (wake_up audio (set_queue q self)) as [[r s] t]. reflexivity.
  - destruct (process audio (set_queue q self)) as [[r s] t]. reflexivity.
Qed.

Lemma read_empty (self : AudioConsumer) :
  queue self = [] -> read self = (Returns tt, self, []).
Proof.
  intros Hq.
  unfold read, try_except, queue_get, mbind, M_bind, mret, M_ret, get.
  rewrite Hq. reflexivity.
Qed.

Lemma read_none (self : AudioConsumer) q :
  queue self = None :: q -> read self = (Returns tt, set_queue q self, []).
Proof.
  intros Hq.
  unfold read, try_except, queue_get, mbind, M_bind, mret, M_ret, get.
  rewrite Hq. reflexivity.
Qed.

Lemma wake_up_eq audio (self : AudioConsumer) :
  wake_up audio self =
    if found_wake_word (wakeup_recognizer self) (frame_data audio)
    then (Returns tt,
          set_state {| running := running (state self); sleeping := false |}
            self,
          [Call_found_wake_word (frame_data audio); Emit awoken])
    else (Returns tt, self, [Call_found_wake_word (frame_data audio)]).
Proof.
  unfold wake_up, call_found_wake_word, mbind, M_bind, mret, M_ret. cbn.
  destruct (found_wake_word _ _); reflexivity.
Qed.

(** [process] with a non-zero [sample_rate * sample_width]: the [wakeword]
    event, then the duration gate, then [transcribe]. *)
Lemma process_eq (self : AudioConsumer) audio :
  sample_rate audio * sample_width audio <> 0 ->
  process audio self =
    let d := (inject_Z (Z.of_nat (length (frame_data audio))) /
              inject_Z (sample_rate audio * sample_width audio))%Q in
    if Qltb d MIN_AUDIO_SIZE then
      (Returns tt, self,
       [Emit (wakeword (word self)); Print "Audio too short to be processed"])
    else
      match transcribe audio self with
      | (Returns (Some text), self', t) =>
          (Returns tt, self',
           Emit (wakeword (word self)) :: t ++
             if PyStr.truthy text
             then [Emit (utterance [text] (lang (stt self')))] else [])
      | (Returns None, self', t) =>
          (Returns tt, self', Emit (wakeword (word self)) :: t)
      | (Raises e, self', t) =>
          (Raises e, self', Emit (wakeword (word self)) :: t)
      end.
Proof.
  intros Hd. apply Z.eqb_neq in Hd.
  unfold process, _audio_length, emit, print, act, raise, get,
    mbind, M_bind, mret, M_ret.
  rewrite Hd. cbn.
  destruct (Qltb _ _); [reflexivity|].
  destruct (transcribe audio self) as [[[[text|]|e] s'] t]; cbn;
    rewrite ?app_nil_r; try reflexivity.
  destruct (PyStr.truthy text); cbn; rewrite ?app_nil_r; reflexivity.
Qed.

(** A zero product makes the division raise, right after the [wakeword]
    event. *)
Lemma process_zero_division (self : AudioConsumer) audio :
  sample_rate audio * sample_width audio = 0 ->
  exists e, __class__ e = ZeroDivisionError /\
    process audio self = (Raises e, self, [Emit (wakeword (word self))]).
Proof.
  intros Hd. apply Z.eqb_eq in Hd. eexists. split; [|
    unfold process, _audio_length, emit, print, act, raise, get,
      mbind, M_bind, mret, M_ret; rewrite Hd; reflexivity ].
  reflexivity.
Qed.

(** Where the classes named in the [except] clauses overlap. *)
Lemma http_error_class e :
  isinstance e HTTPError = true ->
  isinstance e sr_RequestError = false /\ isinstance e ConnectionError = false.
Proof. destruct e as [c s r]; destruct c; vm_compute; intuition congruence. Qed.

Lemma connection_error_class e :
  isinstance e ConnectionError = true ->
  isinstance e sr_RequestError = false /\ isinstance e RequestException = true.
Proof. destruct e as [c s r]; destruct c; vm_compute; intuition congruence. Qed.

Lemma request_error_class e :
  isinstance e sr_RequestError = true ->
  isinstance e RequestException = false /\ isinstance e Exception = true.
Proof. destruct e as [c s r]; destruct c; vm_compute; intuition congruence. Qed.

Lemma request_exception_class e :
  isinstance e RequestException = true -> isinstance e Exception = true.
Proof. destruct e as [c s r]; destruct c; vm_compute; intuition congruence. Qed.

Ltac unfold_transcribe :=
  unfold transcribe, transcribe_handler, try_except, call_execute, lower_strip,
    response_status_code, emit, print, act, raise, get,
    mbind, M_bind, mret, M_ret.

(** Decide [isinstance] wherever the class of the exception is known. *)
Ltac eval_isinstance :=
  repeat match goal with
         | |- context [isinstance ?e ?c] =>
             let b := eval vm_compute in (isinstance e c) in
             change (isinstance e c) with b
         end.

(** [transcribe] when the backend answers. *)
Lemma transcribe_text (self : AudioConsumer) audio s :
  execute (stt self) audio = Returns (Some s) ->
  transcribe audio self =
    let text := PyStr.strip (PyStr.lower s) in
    (Returns (Some text), self, [Call_execute audio; Print ("STT: " +:+ text)]).
Proof. intros He. unfold_transcribe. rewrite He. reflexivity. Qed.

(** [transcribe] when the backend raises: the clause that matches decides. *)
Lemma transcribe_raises (self : AudioConsumer) audio e :
  execute (stt self) audio = Raises e ->
  transcribe audio self =
    match transcribe_handler e self with
    | (Returns (Return v), self', t) => (Returns v, self', Call_execute audio :: t)
    | (Returns FallThrough, self', t) =>
        (Returns None, self',
         Call_execute audio :: t ++
           [Emit (speak "not connected to the internet")])
    | (Raises e', self', t) => (Raises e', self', Call_execute audio :: t)
    end.
Proof.
  intros He. unfold transcribe, try_except, call_execute, lower_strip,
    emit, act, mbind, M_bind, mret, M_ret.
  rewrite He.
  destruct (transcribe_handler e self) as [[[[v|]|e'] s'] t]; cbn;
    rewrite ?app_nil_r; reflexivity.
Qed.

(** ** Asleep: the stand-up phrase and nothing else *)

(** C1.  A clip consumed while [sleeping] is true is handed to the stand-up
    engine and to nothing else: the only actions of that iteration are the
    call of [found_wake_word] on the wake-up engine and, on a match, the
    [awoken] event.  No [utterance] event is emitted, the STT backend is not
    called, and when the engine reports no match the clip is dropped with no
    event at all and the state is left as it was. *)
Theorem asleep_clip_only_tested_for_stand_up
    (self : AudioConsumer) (audio : AudioData) (q : list (option AudioData)) :
  sleeping (state self) = true ->
  queue self = Some audio :: q ->
  Forall (fun a => a = Call_found_wake_word (frame_data audio) \/
                   a = Emit awoken) (read self).2 /\
  Forall (fun a => is_utterance a = false /\ is_call_execute a = false)
         (read self).2 /\
  (found_wake_word (wakeup_recognizer self) (frame_data audio) = false ->
   read self =
     (Returns tt, set_queue q self, [Call_found_wake_word (frame_data audio)])).
Proof.
  intros Hs Hq. rewrite (read_clip self audio q Hq), Hs, wake_up_eq. cbn.
  destruct (found_wake_word _ _); cbn; repeat split;
    repeat constructor; auto; discriminate.
Qed.

Lemma asleep_clip_only_tested_for_stand_up_witness :
  let self := Sample.a_consumer true [Some (Sample.clip 32)]
                (Returns (Some "what time is it")) false in
  sleeping (state self) = true /\
  queue self = [Some (Sample.clip 32)] /\
  Forall (fun a => is_utterance a = false /\ is_call_execute a = false)
         (read self).2.
Proof.
  split; [reflexivity|]. split; [reflexivity|].
  apply (asleep_clip_only_tested_for_stand_up
           (Sample.a_consumer true [Some (Sample.clip 32)]
              (Returns (Some "what time is it")) false)
           (Sample.clip 32) []); reflexivity.
Defined.

(** As long as no queued clip matches the stand-up phrase, a sleeping
    consumer stays asleep through any number of iterations, emits nothing and
    never calls the STT backend. *)
Lemma asleep_run_silent (n : nat) : forall self : AudioConsumer,
  sleeping (state self) = true ->
  Forall (fun o => match o with
                   | Some a => found_wake_word (wakeup_recognizer self)
                                 (frame_data a) = false
                   | None => True
                   end) (queue self) ->
  (run n self).1.1 = Returns tt /\
  sleeping (state (run n self).1.2) = true /\
  events (run n self).2 = [] /\
  Forall (fun a => is_call_execute a = false) (run n self).2.
Proof.
  induction n as [|n IH]; intros self Hs Hq.
  - cbn. auto.
  - cbn [run]. unfold mbind, M_bind, get. cbn.
    destruct (running (state self)); [|cbn; auto].
    destruct (queue self) as [|[a|] q] eqn:Eq.
    + rewrite (read_empty self Eq).
      specialize (IH self Hs). rewrite Eq in IH. specialize (IH Hq).
      destruct (run n self) as [[r s] t]. cbn in *. exact IH.
    + inversion Hq as [|? ? Ha Hq']; subst.
      rewrite (read_clip self a q Eq), Hs, wake_up_eq. cbn. rewrite Ha.
      specialize (IH (set_queue q self) Hs Hq').
      destruct (run n (set_queue q self)) as [[r s] t]. cbn in *.
      destruct IH as (? & ? & ? & ?). repeat split; auto.
    + inversion Hq as [|? ? _ Hq']; subst.
      rewrite (read_none self q Eq).
      specialize (IH (set_queue q self) Hs Hq').
      destruct (run n (set_queue q self)) as [[r s] t]. cbn in *. exact IH.
Qed.

(** C7.  Asleep, with the stand-up engine reporting a match on the clip:
    the iteration clears [sleeping] and emits [awoken] exactly once (it is the
    only event of the iteration). *)
Theorem stand_up_match_awakens
    (self : AudioConsumer) (audio : AudioData) (q : list (option AudioData)) :
  sleeping (state self) = true ->
  queue self = Some audio :: q ->
  found_wake_word (wakeup_recognizer self) (frame_data audio) = true ->
  (read self).1.1 = Returns tt /\
  sleeping (state (read self).1.2) = false /\
  events (read self).2 = [awoken] /\
  count_occ event_eq_dec (events (read self).2) awoken = 1%nat.
Proof.
  intros Hs Hq Hf. rewrite (read_clip self audio q Hq), Hs, wake_up_eq. cbn.
  rewrite Hf. cbn. auto.
Qed.

Lemma stand_up_match_awakens_witness :
  let self := Sample.a_consumer true [Some (Sample.clip 32)]
                (Returns (Some "what time is it")) true in
  sleeping (state self) = true /\
  sleeping (state (read self).1.2) = false /\
  events (read self).2 = [awoken].
Proof.
  split; [reflexivity|].
  destruct (stand_up_match_awakens
              (Sample.a_consumer true [Some (Sample.clip 32)]
                 (Returns (Some "what time is it")) true)
              (Sample.clip 32) [] eq_refl eq_refl eq_refl)
    as (_ & H1 & H2 & _).
  exact (conj H1 H2).
Defined.

(** ** Awake: the duration gate *)

(** C2.  The duration of a clip is [len(frame_data) / (sample_rate *
    sample_width)], and a clip whose duration is strictly below 0.5 s is
    dropped after the [wakeword] event: the STT backend is not called and no
    [utterance] event is emitted. *)
Theorem short_clip_never_reaches_stt (self : AudioConsumer) (audio : AudioData) :
  sample_rate audio * sample_width audio <> 0 ->
  let duration :=
    (inject_Z (Z.of_nat (length (frame_data audio))) /
     inject_Z (sample_rate audio * sample_width audio))%Q in
  _audio_length audio self = (Returns duration, self, []) /\
  ((duration < 1 # 2)%Q ->
   process audio self =
     (Returns tt, self,
      [Emit (wakeword (word self)); Print "Audio too short to be processed"])
   /\ Forall (fun a => is_call_execute a = false /\ is_utterance a = false)
             (process audio self).2).
Proof.
  intros Hd duration. split.
  - unfold _audio_length. apply Z.eqb_neq in Hd. rewrite Hd. reflexivity.
  - intros Hlt.
    assert (Hgate : Qltb duration MIN_AUDIO_SIZE = true).
    { unfold Qltb. apply negb_true_iff.
      destruct (Qle_bool MIN_AUDIO_SIZE duration) eqn:E; [|reflexivity].
      apply Qle_bool_iff in E. unfold MIN_AUDIO_SIZE in E.
      exfalso. exact (Qlt_not_le _ _ Hlt E). }
    rewrite (process_eq self audio Hd). cbn zeta. fold duration.
    rewrite Hgate. split; [reflexivity|].
    repeat constructor.
Qed.

Lemma short_clip_never_reaches_stt_witness :
  let self := Sample.a_consumer false [] (Returns (Some "hello")) false in
  let audio := Sample.clip 7 in
  sample_rate audio * sample_width audio <> 0 /\
  process audio self =
    (Returns tt, self,
     [Emit (wakeword "hey mycroft"); Print "Audio too short to be processed"]).
Proof.
  split; [discriminate|].
  destruct (short_clip_never_reaches_stt
              (Sample.a_consumer false [] (Returns (Some "hello")) false)
              (Sample.clip 7)) as [_ H]; [discriminate|].
  destruct H as [H _]; [reflexivity|]. exact H.
Defined.

(** ** The STT error taxonomy *)

(** The gate lets a clip of at least half a second through. *)
Lemma long_enough_passes (d : Q) :
  (1 # 2 <= d)%Q -> Qltb d MIN_AUDIO_SIZE = false.
Proof.
  intros H. unfold Qltb, MIN_AUDIO_SIZE. apply negb_false_iff.
  apply Qle_bool_iff. exact H.
Qed.

(** C3.  When the STT backend fails with an [HTTPError] whose response has
    status code 401, [transcribe] returns ["pair my device"] instead of
    failing; for a clip of at least 0.5 s processed while awake, the consumer
    then emits [utterance] with [{utterances: ["pair my device"], lang}]. *)
Theorem http_401_pairs_device
    (self : AudioConsumer) (audio : AudioData) (e : exc) (r : Response) :
  execute (stt self) audio = Raises e ->
  isinstance e HTTPError = true ->
  response e = Some r ->
  status_code r = 401 ->
  transcribe audio self =
    (Returns (Some "pair my device"), self,
     [Call_execute audio; Print "Access Denied at mycroft.ai"]) /\
  (sample_rate audio * sample_width audio <> 0 ->
   (1 # 2 <= inject_Z (Z.of_nat (length (frame_data audio))) /
             inject_Z (sample_rate audio * sample_width audio))%Q ->
   process audio self =
     (Returns tt, self,
      [Emit (wakeword (word self)); Call_execute audio;
       Print "Access Denied at mycroft.ai";
       Emit (utterance ["pair my device"] (lang (stt self)))])).
Proof.
  intros He Hh Hr Hc. destruct (http_error_class e Hh) as [H1 H2].
  assert (Ht : transcribe audio self =
                 (Returns (Some "pair my device"), self,
                  [Call_execute audio; Print "Access Denied at mycroft.ai"])).
  { unfold_transcribe. rewrite He, H1, H2, Hh, Hr, Hc. reflexivity. }
  split; [exact Ht|].
  intros Hd Hlen. rewrite (process_eq self audio Hd). cbn zeta.
  rewrite (long_enough_passes _ Hlen), Ht. reflexivity.
Qed.

Lemma http_401_pairs_device_witness :
  let e := Sample.error HTTPError (Some {| status_code := 401 |}) in
  let self := Sample.a_consumer false [] (Raises e) false in
  let audio := Sample.clip 8 in
  isinstance e HTTPError = true /\
  transcribe audio self =
    (Returns (Some "pair my device"), self,
     [Call_execute audio; Print "Access Denied at mycroft.ai"]) /\
  process audio self =
    (Returns tt, self,
     [Emit (wakeword "hey mycroft"); Call_execute audio;
      Print "Access Denied at mycroft.ai";
      Emit (utterance ["pair my device"] "en-us")]).
Proof.
  split; [reflexivity|].
  destruct (http_401_pairs_device
              (Sample.a_consumer false []
                 (Raises (Sample.error HTTPError
                            (Some {| status_code := 401 |}))) false)
              (Sample.clip 8)
              (Sample.error HTTPError (Some {| status_code := 401 |}))
              {| status_code := 401 |} eq_refl eq_refl eq_refl eq_refl)
    as [Ht Hp].
  split; [exact Ht|]. apply Hp; [discriminate|]. cbv. discriminate.
Defined.

(** C4, as the code has it.  When the STT backend fails with
    [sr.RequestError], [transcribe] logs the failure, returns no
    transcription, and emits one event: the [speak] fallback
    ["not connected to the internet"], which the statements after the [try]
    send for every failure that falls through. *)
Theorem request_error_logs_and_speaks
    (self : AudioConsumer) (audio : AudioData) (e : exc) :
  execute (stt self) audio = Raises e ->
  isinstance e sr_RequestError = true ->
  transcribe audio self =
    (Returns None, self,
     [Call_execute audio;
      Print ("Could not request Speech Recognition " +:+ __str__ e);
      Emit (speak "not connected to the internet")]) /\
  events (transcribe audio self).2 = [speak "not connected to the internet"].
Proof.
  intros He Hr.
  assert (Ht : transcribe audio self =
                 (Returns None, self,
                  [Call_execute audio;
                   Print ("Could not request Speech Recognition " +:+ __str__ e);
                   Emit (speak "not connected to the internet")])).
  { unfold_transcribe. rewrite He, Hr. reflexivity. }
  rewrite Ht. split; reflexivity.
Qed.

Lemma request_error_logs_and_speaks_witness :
  let e := Sample.error sr_RequestError None in
  let self := Sample.a_consumer false [] (Raises e) false in
  isinstance e sr_RequestError = true /\
  events (transcribe (Sample.clip 8) self).2 =
    [speak "not connected to the internet"].
Proof.
  split; [reflexivity|].
  exact (proj2 (request_error_logs_and_speaks
                  (Sample.a_consumer false []
                     (Raises (Sample.error sr_RequestError None)) false)
                  (Sample.clip 8) (Sample.error sr_RequestError None)
                  eq_refl eq_refl)).
Defined.

(** C4, as stated, fails: on an [sr.RequestError] the trace of [transcribe]
    is not free of events. *)
Lemma request_error_not_silent :
  let e := Sample.error sr_RequestError None in
  let self := Sample.a_consumer false [] (Raises e) false in
  let audio := Sample.clip 8 in
  execute (stt self) audio = Raises e /\
  isinstance e sr_RequestError = true /\
  (transcribe audio self).1.1 = Returns None /\
  events (transcribe audio self).2 <> [].
Proof. cbv. repeat split; discriminate. Qed.

(** C5.  When the STT backend fails with a connection fault, [transcribe]
    emits [no_internet] and returns no transcription, and [process] emits no
    [utterance] event for the clip. *)
Theorem connection_fault_signals_no_internet
    (self : AudioConsumer) (audio : AudioData) (e : exc) :
  execute (stt self) audio = Raises e ->
  isinstance e ConnectionError = true ->
  transcribe audio self =
    (Returns None, self,
     [Call_execute audio; Print ("Connection Error: " +:+ __str__ e);
      Emit no_internet; Emit (speak "not connected to the internet")]) /\
  Forall (fun a => is_utterance a = false) (process audio self).2 /\
  (sample_rate audio * sample_width audio <> 0 ->
   (1 # 2 <= inject_Z (Z.of_nat (length (frame_data audio))) /
             inject_Z (sample_rate audio * sample_width audio))%Q ->
   events (process audio self).2 =
     [wakeword (word self); no_internet;
      speak "not connected to the internet"]).
Proof.
  intros He Hc. destruct (connection_error_class e Hc) as [H1 _].
  assert (Ht : transcribe audio self =
                 (Returns None, self,
                  [Call_execute audio;
                   Print ("Connection Error: " +:+ __str__ e);
                   Emit no_internet;
                   Emit (speak "not connected to the internet")])).
  { unfold_transcribe. rewrite He, H1, Hc. reflexivity. }
  split; [exact Ht|]. split.
  - destruct (Z.eq_dec (sample_rate audio * sample_width audio) 0) as [Hz|Hd].
    + destruct (process_zero_division self audio Hz) as (e' & _ & ->).
      repeat constructor.
    + rewrite (process_eq self audio Hd). cbn zeta.
      destruct (Qltb _ _); [repeat constructor|].
      rewrite Ht. repeat constructor.
  - intros Hd Hlen. rewrite (process_eq self audio Hd). cbn zeta.
    rewrite (long_enough_passes _ Hlen), Ht. reflexivity.
Qed.

Lemma connection_fault_signals_no_internet_witness :
  let e := Sample.error ConnectTimeout None in
  let self := Sample.a_consumer false [] (Raises e) false in
  let audio := Sample.clip 8 in
  isinstance e ConnectionError = true /\
  events (process audio self).2 =
    [wakeword "hey mycroft"; no_internet;
     speak "not connected to the internet"].
Proof.
  split; [reflexivity|].
  destruct (connection_fault_signals_no_internet
              (Sample.a_consumer false []
                 (Raises (Sample.error ConnectTimeout None)) false)
              (Sample.clip 8) (Sample.error ConnectTimeout None)
              eq_refl eq_refl) as (_ & _ & H).
  apply H; [discriminate|]. cbv. discriminate.
Defined.


(** C9.  [transcribe] emits [speak] with ["not connected to the internet"]
    exactly when the STT call failed with a recognition-engine request error,
    a connection error, a non-401 HTTP error or another request exception.
    It is not emitted after a transcription, after a 401, nor after any other
    failure: the last [except] clause emits [speech.recognition.unknown] and
    returns [None] first.  (An [HTTPError] that carries no response makes the
    401 test itself raise; nothing is spoken then either.) *)
Theorem speak_iff_stt_unavailable (self : AudioConsumer) (audio : AudioData) :
  (In (Emit (speak "not connected to the internet")) (transcribe audio self).2
   <-> exists e, execute (stt self) audio = Raises e /\
                 stt_unavailable e = true) /\
  (forall e, execute (stt self) audio = Raises e ->
     isinstance e Exception = true ->
     isinstance e sr_RequestError = false ->
     isinstance e RequestException = false ->
     (transcribe audio self).1.1 = Returns None /\
     events (transcribe audio self).2 = [speech_recognition_unknown]).
Proof.
  split.
  - destruct (execute (stt self) audio) as [[s|]|e] eqn:He.
    + rewrite (transcribe_text self audio s He). cbn. split.
      * intros [H|[H|[]]]; discriminate.
      * intros (e & H & _). discriminate.
    + unfold_transcribe. rewrite He. cbn. split.
      * intros H. repeat (destruct H as [H|H]; [discriminate|]). destruct H.
      * intros (e & H & _). discriminate.
    + rewrite (transcribe_raises self audio e He).
      destruct e as [c s r].
      destruct c, r as [[code]|]; unfold transcribe_handler;
        eval_isinstance; cbv iota;
        unfold response_status_code, emit, print, act, raise,
          mbind, M_bind, mret, M_ret; cbn;
        try destruct (code =? 401) eqn:E; cbn;
        (split;
         [ intros H;
           repeat (destruct H as [H|H]; [try discriminate|]);
           try (destruct H; fail);
           eexists; (split; [reflexivity|]);
           unfold stt_unavailable; eval_isinstance; cbn;
           try rewrite E; reflexivity
         | intros (e' & H & Hu); injection H as <-;
           unfold stt_unavailable in Hu; revert Hu; eval_isinstance; cbn;
           try rewrite E; intros Hu; try discriminate; auto 6 ]).
  - intros e He H1 H2 H3. rewrite (transcribe_raises self audio e He).
    destruct e as [c s r].
    destruct c; revert H1 H2 H3; unfold transcribe_handler; eval_isinstance;
      intros H1 H2 H3; try discriminate; cbv iota;
      unfold emit, print, act, mbind, M_bind, mret, M_ret; cbn; auto.
Qed.

Lemma speak_iff_stt_unavailable_witness :
  let e := Sample.error IndexError None in
  let self := Sample.a_consumer false [] (Raises e) false in
  let audio := Sample.clip 8 in
  isinstance e Exception = true /\
  isinstance e sr_RequestError = false /\
  isinstance e RequestException = false /\
  (transcribe audio self).1.1 = Returns None /\
  events (transcribe audio self).2 = [speech_recognition_unknown].
Proof.
  do 3 (split; [reflexivity|]).
  exact (proj2 (speak_iff_stt_unavailable
                  (Sample.a_consumer false []
                     (Raises (Sample.error IndexError None)) false)
                  (Sample.clip 8))
           (Sample.error IndexError None) eq_refl eq_refl eq_refl eq_refl).
Defined.

(** ** The active wake phrase *)

Create HintDb frame.

Lemma same_config_refl self : same_config self self.
Proof. repeat split. Qed.

Lemma same_config_trans a b c :
  same_config a b -> same_config b c -> same_config a c.
Proof. unfold same_config. intuition congruence. Qed.

Lemma keeps_ret {A} (a : A) : keeps_config (mret a).
Proof. intros self. apply same_config_refl. Qed.

Lemma keeps_raise {A} (e : exc) : keeps_config (@raise A e).
Proof. intros self. apply same_config_refl. Qed.

Lemma keeps_act (a : action) : keeps_config (act a).
Proof. intros self. apply same_config_refl. Qed.

Lemma keeps_get {A} (f : AudioConsumer -> A) : keeps_config (get f).
Proof. intros self. apply same_config_refl. Qed.

Lemma keeps_set_sleeping (b : bool) : keeps_config (set_sleeping b).
Proof. intros self. repeat split. Qed.

Lemma keeps_queue_get : keeps_config queue_get.
Proof. intros self. unfold queue_get. destruct (queue self); repeat split. Qed.

Lemma keeps_call_execute audio : keeps_config (call_execute audio).
Proof. intros self. apply same_config_refl. Qed.

Lemma keeps_call_found_wake_word frames :
  keeps_config (call_found_wake_word frames).
Proof. intros self. apply same_config_refl. Qed.

Lemma keeps_bind {A B} (m : M A) (k : A -> M B) :
  keeps_config m -> (forall a, keeps_config (k a)) -> keeps_config (m ≫= k).
Proof.
  intros Hm Hk self. unfold mbind, M_bind. specialize (Hm self).
  destruct (m self) as [[[a|e] s1] t1]; cbn in *; [|exact Hm].
  specialize (Hk a s1). destruct (k a s1) as [[r s2] t2]. cbn in *.
  eapply same_config_trans; eassumption.
Qed.

Lemma keeps_try {A} (body : M A) (handler : exc -> M A) :
  keeps_config body -> (forall e, keeps_config (handler e)) ->
  keeps_config (try_except body handler).
Proof.
  intros Hm Hk self. unfold try_except. specialize (Hm self).
  destruct (body self) as [[[a|e] s1] t1]; cbn in *; [exact Hm|].
  specialize (Hk e s1). destruct (handler e s1) as [[r s2] t2]. cbn in *.
  eapply same_config_trans; eassumption.
Qed.

#[local] Hint Resolve keeps_ret keeps_raise keeps_act keeps_get
  keeps_set_sleeping keeps_queue_get keeps_call_execute
  keeps_call_found_wake_word : frame.

(** Walk through a method body, statement by statement. *)
Ltac keeps :=
  unfold emit, print;
  repeat first
    [ solve [auto with frame]
    | apply keeps_bind; [|intros ?]
    | apply keeps_try; [|intros ?]
    | match goal with
      | |- keeps_config (if ?b then _ else _) => destruct b
      | |- keeps_config (match ?x with _ => _ end) => destruct x
      end ].

Lemma keeps_transcribe audio : keeps_config (transcribe audio).
Proof.
  unfold transcribe, transcribe_handler, lower_strip, response_status_code.
  keeps.
Qed.

#[local] Hint Resolve keeps_transcribe : frame.

Lemma keeps_process audio : keeps_config (process audio).
Proof. unfold process, _audio_length. keeps. Qed.

Lemma keeps_wake_up audio : keeps_config (wake_up audio).
Proof. unfold wake_up. keeps. Qed.

#[local] Hint Resolve keeps_process keeps_wake_up : frame.

Lemma keeps_read : keeps_config read.
Proof. unfold read. keeps. Qed.

Lemma last_hotword_snoc (ins : list input) (i : input) :
  last_hotword (ins ++ [i]) =
    match i with hotword ev => Some ev | _ => last_hotword ins end.
Proof.
  induction ins as [|a ins IH]; cbn.
  - destruct i; reflexivity.
  - rewrite IH. destruct i; reflexivity.
Qed.

Lemma exec_snoc (w : world) (ins : list input) (i : input) :
  exec w (ins ++ [i]) = step (exec w ins) i.
Proof. unfold exec. rewrite fold_left_app. reflexivity. Qed.

(** Whatever the threads do, the consumer's word is the active phrase and its
    wake-word engine is the one it was built with. *)
Lemma exec_active_phrase (c0 : AudioConsumer) (ins : list input) :
  word c0 = key_phrase (wakeword_recognizer c0) ->
  word (consumer (exec (started c0) ins)) =
    active_phrase (wakeword_recognizer c0) ins /\
  wakeword_recognizer (consumer (exec (started c0) ins)) =
    wakeword_recognizer c0.
Proof.
  intros H0. induction ins as [|i ins [IHw IHr]] using rev_ind.
  - cbn. split; [exact H0|reflexivity].
  - rewrite exec_snoc. unfold active_phrase in *.
    rewrite last_hotword_snoc.
    set (w := exec (started c0) ins) in *.
    destruct i; cbn; try (split; assumption).
    + rewrite IHr. split; reflexivity.
    + destruct (alive w); [|split; assumption].
      destruct (running (state (consumer w))); [|split; assumption].
      pose proof (keeps_read (consumer w)) as (Hw & _ & _ & Hr).
      destruct (read (consumer w)) as [[[u|e] c'] t]; cbn in *;
        rewrite Hw, Hr; split; assumption.
Qed.

(** [process] opens with the [wakeword] event, whatever the clip. *)
Lemma process_opens_with_wakeword (self : AudioConsumer) (audio : AudioData) :
  exists rest, (process audio self).2 = Emit (wakeword (word self)) :: rest.
Proof.
  destruct (Z.eq_dec (sample_rate audio * sample_width audio) 0) as [Hz|Hd].
  - destruct (process_zero_division self audio Hz) as (e & _ & ->).
    eexists; reflexivity.
  - rewrite (process_eq self audio Hd). cbn zeta.
    destruct (Qltb _ _); [eexists; reflexivity|].
    destruct (transcribe audio self) as [[[[text|]|e] s'] t];
      eexists; reflexivity.
Qed.

(** C8.  A clip processed while awake first yields a [wakeword] event, before
    the duration check and whatever its outcome, and the phrase it carries is
    the one set by the latest inbound [hotword] event
    ([event.get("hotword", key_phrase)]), or the key phrase of the primary
    wake-word engine when no such event came in. *)
Theorem wakeword_reports_active_phrase
    (st : RecognizerLoopState) (q0 : list (option AudioData)) (stt0 : STT)
    (wakeup wakeword_rec : HotWordEngine)
    (ins : list input) (audio : AudioData) (q : list (option AudioData)) :
  let c := consumer (exec (started (__init__ st q0 stt0 wakeup wakeword_rec))
                       ins) in
  queue c = Some audio :: q ->
  sleeping (state c) = false ->
  exists rest,
    (read c).2 =
      Emit (wakeword
              match last_hotword ins with
              | Some ev => default (key_phrase wakeword_rec) (ev !! "hotword")
              | None => key_phrase wakeword_rec
              end) :: rest.
Proof.
  intros c Hq Hs.
  destruct (exec_active_phrase (__init__ st q0 stt0 wakeup wakeword_rec) ins
              eq_refl) as [Hw _].
  fold c in Hw. unfold active_phrase in Hw. cbn in Hw.
  rewrite (read_clip c audio q Hq), Hs.
  destruct (process_opens_with_wakeword (set_queue q c) audio) as [rest Hp].
  exists rest. rewrite Hp. cbn. rewrite Hw. reflexivity.
Qed.

Lemma wakeword_reports_active_phrase_witness :
  let ins := [hotword {["hotword" := "hey jarbas"]};
              put (Some (Sample.clip 3))] in
  let c := consumer (exec (started (Sample.a_consumer false []
                                      (Returns (Some "hello")) false)) ins) in
  queue c = [Some (Sample.clip 3)] /\
  sleeping (state c) = false /\
  exists rest, (read c).2 = Emit (wakeword "hey jarbas") :: rest.
Proof.
  split; [reflexivity|]. split; [reflexivity|].
  exact (wakeword_reports_active_phrase
           {| running := true; sleeping := false |} []
           (Sample.backend (Returns (Some "hello")))
           (Sample.engine "wake up" false) (Sample.engine "hey mycroft" true)
           [hotword {["hotword" := "hey jarbas"]}; put (Some (Sample.clip 3))]
           (Sample.clip 3) [] eq_refl eq_refl).
Defined.

(** ** The mute counter *)

Section MuteCounter.
Import RecognizerLoop.

Lemma mute_iter (N : nat) (l : t) (m : MutableMicrophone) :
  microphone l = Some m ->
  mute_calls (Nat.iter N mute l) = mute_calls l + Z.of_nat N /\
  exists m', microphone (Nat.iter N mute l) = Some m' /\
             (N = 0%nat -> m' = m).
Proof.
  intros Hm. induction N as [|N (Hc & m' & Hm' & _)].
  - cbn. split; [lia|]. exists m. auto.
  - rewrite Nat.iter_succ. unfold mute at 1 3. cbn [mute_calls microphone].
    rewrite Hc, Hm'. split; [lia|]. cbn. eexists. split; [reflexivity|].
    discriminate.
Qed.

Lemma unmute_positive (l : t) (m : MutableMicrophone) :
  microphone l = Some m ->
  0 < mute_calls l ->
  unmute l =
    if mute_calls l =? 1
    then {| mute_calls := 0; microphone := Some (mic_unmute m) |}
    else {| mute_calls := mute_calls l - 1; microphone := Some m |}.
Proof.
  intros Hm Hpos. unfold unmute.
  replace (0 <? mute_calls l) with true by (symmetry; apply Z.ltb_lt; lia).
  cbn [mute_calls microphone]. rewrite Hm.
  destruct (mute_calls l =? 1) eqn:E.
  - apply Z.eqb_eq in E. rewrite E. reflexivity.
  - apply Z.eqb_neq in E.
    replace (mute_calls l - 1 <=? 0) with false
      by (symmetry; apply Z.leb_gt; lia).
    reflexivity.
Qed.

Lemma unmute_iter (k : nat) : forall (l : t) (m : MutableMicrophone),
  microphone l = Some m ->
  mute_calls l = Z.of_nat k ->
  (k = 0%nat -> muted m = false) ->
  is_muted (Nat.iter k unmute l) = false /\
  mute_calls (Nat.iter k unmute l) = 0.
Proof.
  induction k as [|k IH]; intros l m Hm Hc H0.
  - cbn. unfold is_muted. rewrite Hm. split; [auto|lia].
  - rewrite Nat.iter_succ_r, (unmute_positive l m Hm) by lia.
    destruct (mute_calls l =? 1) eqn:E.
    + apply Z.eqb_eq in E.
      apply (IH _ (mic_unmute m)); [reflexivity | cbn; lia | reflexivity].
    + apply Z.eqb_neq in E.
      apply (IH _ m); [reflexivity | cbn; lia | lia].
Qed.

(** C6.  With a microphone configured and starting from depth zero, [N]
    calls of [mute()] followed by [N] calls of [unmute()] leave the
    microphone unmuted and the depth at zero (for [N = 0] nothing is called,
    so the microphone must be unmuted to begin with); and [force_unmute()],
    at any depth, leaves the microphone unmuted and [mute_calls] at zero. *)
Theorem mute_unmute_balanced (l : t) (m : MutableMicrophone) :
  microphone l = Some m ->
  (forall N : nat,
     mute_calls l = 0 ->
     (N = 0%nat -> muted m = false) ->
     is_muted (Nat.iter N unmute (Nat.iter N mute l)) = false /\
     mute_calls (Nat.iter N unmute (Nat.iter N mute l)) = 0) /\
  (is_muted (force_unmute l) = false /\ mute_calls (force_unmute l) = 0).
Proof.
  intros Hm. split.
  - intros N Hc H0.
    destruct (mute_iter N l m Hm) as (HcN & m' & Hm' & Hsame).
    apply (unmute_iter N _ m' Hm').
    + rewrite HcN, Hc. lia.
    + intros HN. rewrite (Hsame HN). exact (H0 HN).
  - unfold force_unmute, unmute, is_muted. cbn. rewrite Hm. cbn. auto.
Qed.

Lemma mute_unmute_balanced_witness :
  microphone init = Some (mic_new false) /\
  is_muted (Nat.iter 3 unmute (Nat.iter 3 mute init)) = false /\
  mute_calls (Nat.iter 3 unmute (Nat.iter 3 mute init)) = 0 /\
  is_muted (force_unmute (Nat.iter 2 mute init)) = false /\
  mute_calls (force_unmute (Nat.iter 2 mute init)) = 0.
Proof.
  split; [reflexivity|].
  destruct (proj1 (mute_unmute_balanced init (mic_new false) eq_refl)
              3%nat eq_refl) as [H1 H2]; [discriminate|].
  destruct (proj2 (mute_unmute_balanced (Nat.iter 2 mute init)
                     (mic_mute (mic_mute (mic_new false))) eq_refl))
    as [H3 H4].
  exact (conj H1 (conj H2 (conj H3 H4))).
Defined.

Lemma serve_keeps_nonnegative (l : t) (r : request) :
  0 <= mute_calls l -> 0 <= mute_calls (serve l r).
Proof.
  intros H. destruct r; cbn.
  - lia.
  - unfold unmute.
    destruct (0 <? mute_calls l) eqn:E; cbn [mute_calls microphone].
    + apply Z.ltb_lt in E.
      destruct (mute_calls l - 1 <=? 0); [destruct (microphone l)|];
        cbn; lia.
    + destruct (mute_calls l <=? 0); [destruct (microphone l)|]; cbn; lia.
  - unfold force_unmute, unmute. cbn. destruct (microphone l); cbn; lia.
Qed.

(** C10.  [mute_calls] is never negative: it starts at zero, each of
    [mute()], [unmute()] and [force_unmute()] keeps it non-negative, hence so
    does any sequence of them; and [unmute()] at depth zero leaves the counter
    at zero and still calls the microphone's [unmute]. *)
Theorem mute_calls_never_negative :
  mute_calls init = 0 /\
  (forall l r, 0 <= mute_calls l -> 0 <= mute_calls (serve l r)) /\
  (forall rs, 0 <= mute_calls (serve_all init rs)) /\
  (forall l m, mute_calls l = 0 -> microphone l = Some m ->
     unmute l = {| mute_calls := 0; microphone := Some (mic_unmute m) |} /\
     calls (mic_unmute m) = calls m ++ [Mic_unmute]).
Proof.
  split; [reflexivity|]. split; [exact serve_keeps_nonnegative|]. split.
  - intros rs. unfold serve_all.
    assert (H : forall l, 0 <= mute_calls l ->
                          0 <= mute_calls (fold_left serve rs l)).
    { induction rs as [|r rs IH]; intros l Hl; cbn; [exact Hl|].
      apply IH, serve_keeps_nonnegative, Hl. }
    apply H. cbn. lia.
  - intros l m Hc Hm. unfold unmute. rewrite Hc. cbn. rewrite Hc, Hm. cbn.
    auto.
Qed.

Lemma mute_calls_never_negative_witness :
  mute_calls init = 0 /\
  0 <= mute_calls (serve_all init [Unmute; Mute; Force_unmute; Unmute]) /\
  unmute init =
    {| mute_calls := 0; microphone := Some (mic_unmute (mic_new false)) |}.
Proof.
  destruct mute_calls_never_negative as (H0 & _ & Hall & Hzero).
  split; [exact H0|]. split; [apply Hall|].
  exact (proj1 (Hzero init (mic_new false) eq_refl eq_refl)).
Defined.

End MuteCounter.

(** ** More on the consumer *)

Section Preserves.
Variable R : AudioConsumer -> AudioConsumer -> Prop.
Hypothesis R_refl : forall a, R a a.
Hypothesis R_trans : forall a b c, R a b -> R b c -> R a c.

Lemma preserves_ret {A} (a : A) : preserves R (mret a).
Proof. intros self. apply R_refl. Qed.

Lemma preserves_raise {A} (e : exc) : preserves R (@raise A e).
Proof. intros self. apply R_refl. Qed.

Lemma preserves_act (a : action) : preserves R (act a).
Proof. intros self. apply R_refl. Qed.

Lemma preserves_get {A} (f : AudioConsumer -> A) : preserves R (get f).
Proof. intros self. apply R_refl. Qed.

Lemma preserves_call_execute audio : preserves R (call_execute audio).
Proof. intros self. apply R_refl. Qed.

Lemma preserves_call_found_wake_word frames :
  preserves R (call_found_wake_word frames).
Proof. intros self. apply R_refl. Qed.

Lemma preserves_bind {A B} (m : M A) (k : A -> M B) :
  preserves R m -> (forall a, preserves R (k a)) -> preserves R (m ≫= k).
Proof.
  intros Hm Hk self. unfold mbind, M_bind. specialize (Hm self).
  destruct (m self) as [[[a|e] s1] t1]; cbn in *; [|exact Hm].
  specialize (Hk a s1). destruct (k a s1) as [[r s2] t2]. cbn in *.
  eapply R_trans; eassumption.
Qed.

Lemma preserves_try {A} (body : M A) (handler : exc -> M A) :
  preserves R body -> (forall e, preserves R (handler e)) ->
  preserves R (try_except body handler).
Proof.
  intros Hm Hk self. unfold try_except. specialize (Hm self).
  destruct (body self) as [[[a|e] s1] t1]; cbn in *; [exact Hm|].
  specialize (Hk e s1). destruct (handler e s1) as [[r s2] t2]. cbn in *.
  eapply R_trans; eassumption.
Qed.

End Preserves.

Ltac preserves_step :=
  first
    [ apply preserves_ret | apply preserves_raise | apply preserves_act
    | apply preserves_get | apply preserves_call_execute
    | apply preserves_call_found_wake_word
    | apply preserves_bind; [| |intros ?]
    | apply preserves_try; [| |intros ?] ].

Ltac preserves_walk :=
  unfold emit, print;
  repeat first
    [ solve [auto]
    | preserves_step
    | match goal with
      | |- preserves _ (if ?b then _ else _) => destruct b
      | |- preserves _ (match ?x with _ => _ end) => destruct x
      end ].

Lemma flags_kept_refl a : flags_kept a a.
Proof. split; auto. Qed.

Lemma flags_kept_trans a b c : flags_kept a b -> flags_kept b c -> flags_kept a c.
Proof. unfold flags_kept. intros [? ?] [? ?]. split; [congruence|auto]. Qed.

Lemma queue_kept_refl a : queue_kept a a.
Proof. reflexivity. Qed.

Lemma queue_kept_trans a b c : queue_kept a b -> queue_kept b c -> queue_kept a c.
Proof. unfold queue_kept. congruence. Qed.

Lemma transcribe_flags audio : preserves flags_kept (transcribe audio).
Proof.
  pose proof flags_kept_refl. pose proof flags_kept_trans.
  unfold transcribe, transcribe_handler, lower_strip, response_status_code.
  preserves_walk.
Qed.

Lemma set_sleeping_false_flags : preserves flags_kept (set_sleeping false).
Proof. intros self. split; reflexivity. Qed.

Lemma queue_get_flags : preserves flags_kept queue_get.
Proof.
  intros self. unfold queue_get. destruct (queue self); split; auto.
Qed.

Lemma read_flags : preserves flags_kept read.
Proof.
  pose proof flags_kept_refl. pose proof flags_kept_trans.
  pose proof set_sleeping_false_flags. pose proof queue_get_flags.
  pose proof transcribe_flags.
  unfold read, wake_up, process, _audio_length.
  preserves_walk.
Qed.

(** X2.  The consumer thread never ends the loop by itself and never puts
    the system to sleep: through any number of iterations, whatever the clips
    and the answers of the engines, [running] is left as it was, and a
    consumer that was awake is still awake. *)
Theorem consumer_leaves_running_and_never_sleeps (n : nat) (self : AudioConsumer) :
  running (state (run n self).1.2) = running (state self) /\
  (sleeping (state self) = false ->
   sleeping (state (run n self).1.2) = false).
Proof.
  revert self. induction n as [|n IH]; intros self; [split; auto|].
  cbn [run]. unfold mbind, M_bind, get. cbn.
  destruct (running (state self)) eqn:Hr; [|cbn; rewrite Hr; auto].
  pose proof (read_flags self) as [H1 H2].
  destruct (read self) as [[[u|e] s1] t1]; cbn in *.
  - specialize (IH s1). destruct (run n s1) as [[r s2] t2]. cbn in *.
    destruct IH as [I1 I2]. split; [congruence|auto].
  - split; [congruence|auto].
Qed.

Lemma set_sleeping_queue b : preserves queue_kept (set_sleeping b).
Proof. intros self. reflexivity. Qed.

Lemma clip_handling_keeps_queue audio :
  preserves queue_kept (wake_up audio) /\ preserves queue_kept (process audio).
Proof.
  pose proof queue_kept_refl. pose proof queue_kept_trans.
  pose proof set_sleeping_queue.
  split; unfold wake_up, process, _audio_length, transcribe,
    transcribe_handler, lower_strip, response_status_code; preserves_walk.
Qed.

Lemma handler_calls_nothing e (self : AudioConsumer) :
  stt_calls (transcribe_handler e self).2 = [].
Proof.
  unfold transcribe_handler, response_status_code, emit, print, act, raise,
    mbind, M_bind, mret, M_ret.
  repeat match goal with
         | |- context [if ?b then _ else _] => destruct b; cbn
         | |- context [match response e with _ => _ end] =>
             destruct (response e); cbn
         end; reflexivity.
Qed.

Lemma stt_calls_app t1 t2 : stt_calls (t1 ++ t2) = stt_calls t1 ++ stt_calls t2.
Proof. unfold stt_calls. apply omap_app. Qed.

Lemma transcribe_calls_once audio (self : AudioConsumer) :
  stt_calls (transcribe audio self).2 = [audio].
Proof.
  destruct (execute (stt self) audio) as [[s|]|e] eqn:He.
  - rewrite (transcribe_text self audio s He). reflexivity.
  - unfold_transcribe. rewrite He. reflexivity.
  - rewrite (transcribe_raises self audio e He).
    pose proof (handler_calls_nothing e self) as Hh.
    destruct (transcribe_handler e self) as [[[[v|]|e'] s'] t]; cbn in *;
      rewrite ?stt_calls_app, ?Hh; try (unfold stt_calls in *; cbn; rewrite Hh);
      reflexivity.
Qed.

Lemma process_calls audio (self : AudioConsumer) :
  stt_calls (process audio self).2 = [] \/
  stt_calls (process audio self).2 = [audio].
Proof.
  destruct (Z.eq_dec (sample_rate audio * sample_width audio) 0) as [Hz|Hd].
  - destruct (process_zero_division self audio Hz) as (e & _ & ->). now left.
  - rewrite (process_eq self audio Hd). cbn zeta.
    destruct (Qltb _ _); [now left|]. right.
    pose proof (transcribe_calls_once audio self) as Hc.
    destruct (transcribe audio self) as [[[[text|]|e] s'] t];
      cbn [fst snd] in *; unfold stt_calls in *; cbn [omap list_omap];
      try exact Hc.
    rewrite omap_app, Hc. destruct (PyStr.truthy text); reflexivity.
Qed.

(** One iteration takes at most the oldest entry off the queue, and calls the
    STT backend on nothing but the clip it took. *)
Lemma read_takes_head (self : AudioConsumer) :
  exists k, (k <= 1)%nat /\
    queue (read self).1.2 = drop k (queue self) /\
    stt_calls (read self).2 `sublist_of` clips (take k (queue self)).
Proof.
  destruct (queue self) as [|[audio|] q] eqn:Hq.
  - exists 0%nat. rewrite (read_empty self Hq). cbn. rewrite Hq. auto.
  - exists 1%nat. rewrite (read_clip self audio q Hq).
    destruct (clip_handling_keeps_queue audio) as [Hw Hp].
    split; [lia|]. cbn. rewrite drop_0. split.
    + destruct (sleeping (state self)); [apply Hw|apply Hp].
    + destruct (sleeping (state self)).
      * rewrite wake_up_eq. destruct (found_wake_word _ _); cbn;
          apply sublist_nil_l.
      * destruct (process_calls audio (set_queue q self)) as [-> | ->];
          [apply sublist_nil_l|reflexivity].
  - exists 1%nat. rewrite (read_none self q Hq). cbn. rewrite drop_0. auto.
Qed.

(** X1.  Clips are handled in arrival order.  Whatever happens while the
    loop runs, it has taken some [k] oldest entries off the queue, the rest
    is untouched, and the clips the STT backend was called on are among those
    [k] entries, in queue order, each at most once. *)
Theorem stt_called_in_queue_order (n : nat) (self : AudioConsumer) :
  exists k,
    queue (run n self).1.2 = drop k (queue self) /\
    stt_calls (run n self).2 `sublist_of` clips (take k (queue self)).
Proof.
  revert self. induction n as [|n IH]; intros self.
  - exists 0%nat. cbn. rewrite drop_0. auto.
  - cbn [run]. unfold mbind, M_bind, get. cbn.
    destruct (running (state self)).
    2:{ exists 0%nat. cbn. rewrite drop_0. auto. }
    destruct (read_takes_head self) as (k1 & _ & Hq1 & Hs1).
    destruct (read self) as [[[u|e] s1] t1]; cbn in *.
    + destruct (IH s1) as (k2 & Hq2 & Hs2).
      destruct (run n s1) as [[r s2] t2]. cbn in *.
      exists (k1 + k2)%nat. split.
      * rewrite Hq2, Hq1, drop_drop. reflexivity.
      * rewrite stt_calls_app, <- take_take_drop.
        unfold clips in *. rewrite omap_app, <- Hq1.
        apply sublist_app; assumption.
    + exists k1. auto.
Qed.

(** *** The text of an utterance *)

Lemma lower_char_idem c : PyStr.lower_char (PyStr.lower_char c) = PyStr.lower_char c.
Proof. destruct c as [[] [] [] [] [] [] [] []]; reflexivity. Qed.

Lemma is_space_lower_char c : PyStr.is_space (PyStr.lower_char c) = PyStr.is_space c.
Proof. destruct c as [[] [] [] [] [] [] [] []]; reflexivity. Qed.

Lemma lower_idem s : PyStr.lower (PyStr.lower s) = PyStr.lower s.
Proof. induction s as [|c r IH]; cbn; [|rewrite lower_char_idem, IH]; reflexivity. Qed.

Lemma lower_lstrip s : PyStr.lower (PyStr.lstrip s) = PyStr.lstrip (PyStr.lower s).
Proof.
  induction s as [|c r IH]; cbn; [reflexivity|].
  rewrite is_space_lower_char. destruct (PyStr.is_space c); [exact IH|reflexivity].
Qed.

Lemma lower_rstrip s : PyStr.lower (PyStr.rstrip s) = PyStr.rstrip (PyStr.lower s).
Proof.
  induction s as [|c r IH]; cbn; [reflexivity|].
  rewrite <- IH, is_space_lower_char.
  destruct (PyStr.rstrip r); cbn; [destruct (PyStr.is_space c)|]; reflexivity.
Qed.

Lemma rstrip_cons_nonspace c r :
  PyStr.is_space c = false ->
  PyStr.rstrip (String c r) = String c (PyStr.rstrip r).
Proof. intros H. cbn. rewrite H. destruct (PyStr.rstrip r); reflexivity. Qed.

Lemma rstrip_idem s : PyStr.rstrip (PyStr.rstrip s) = PyStr.rstrip s.
Proof.
  induction s as [|c r IH]; cbn; [reflexivity|].
  destruct (PyStr.rstrip r) as [|c' r'] eqn:E.
  - destruct (PyStr.is_space c) eqn:Ec; cbn; [|rewrite Ec]; reflexivity.
  - change (PyStr.rstrip (String c (String c' r')))
      with (match PyStr.rstrip (String c' r') with
            | EmptyString =>
                if PyStr.is_space c then EmptyString else String c EmptyString
            | String a b => String c (String a b)
            end).
    rewrite IH. reflexivity.
Qed.

Lemma lstrip_head s :
  PyStr.lstrip s = "" \/
  exists c r, PyStr.lstrip s = String c r /\ PyStr.is_space c = false.
Proof.
  induction s as [|c r IH]; cbn; [now left|].
  destruct (PyStr.is_space c) eqn:E; [exact IH|]. right. eauto.
Qed.

Lemma strip_idem s : PyStr.strip (PyStr.strip s) = PyStr.strip s.
Proof.
  unfold PyStr.strip. destruct (lstrip_head s) as [->|(c & r & -> & Hc)].
  - reflexivity.
  - rewrite (rstrip_cons_nonspace c r Hc). cbn [PyStr.lstrip]. rewrite Hc.
    rewrite (rstrip_cons_nonspace c _ Hc), rstrip_idem. reflexivity.
Qed.

Lemma strip_lower_normalized s :
  PyStr.truthy (PyStr.strip (PyStr.lower s)) = true ->
  normalized (PyStr.strip (PyStr.lower s)).
Proof.
  intros Ht. split; [|split].
  - intros E. rewrite E in Ht. discriminate.
  - apply strip_idem.
  - unfold PyStr.strip. rewrite lower_rstrip, lower_lstrip, lower_idem.
    reflexivity.
Qed.

Lemma handler_result e (self : AudioConsumer) v :
  (transcribe_handler e self).1.1 = Returns (Return (Some v)) ->
  v = "pair my device".
Proof.
  unfold transcribe_handler, response_status_code, emit, print, act, raise,
    mbind, M_bind, mret, M_ret.
  repeat match goal with
         | |- context [if ?b then _ else _] => destruct b; cbn
         | |- context [match response e with _ => _ end] =>
             destruct (response e); cbn
         end; congruence.
Qed.

Lemma handler_no_utterance e (self : AudioConsumer) :
  Forall (fun a => is_utterance a = false) (transcribe_handler e self).2.
Proof.
  unfold transcribe_handler, response_status_code, emit, print, act, raise,
    mbind, M_bind, mret, M_ret.
  repeat match goal with
         | |- context [if ?b then _ else _] => destruct b; cbn
         | |- context [match response e with _ => _ end] =>
             destruct (response e); cbn
         end; repeat constructor.
Qed.

(** What [transcribe] returns is the normalized answer of the backend or the
    pairing phrase, and it emits no [utterance] itself. *)
Lemma transcribe_result audio (self : AudioConsumer) text :
  (transcribe audio self).1.1 = Returns (Some text) ->
  text = "pair my device" \/
  exists s, execute (stt self) audio = Returns (Some s) /\
            text = PyStr.strip (PyStr.lower s).
Proof.
  destruct (execute (stt self) audio) as [[s|]|e] eqn:He.
  - rewrite (transcribe_text self audio s He). cbn. intros [= <-]. eauto.
  - unfold_transcribe. rewrite He. cbn. discriminate.
  - rewrite (transcribe_raises self audio e He).
    pose proof (handler_result e self) as Hh.
    destruct (transcribe_handler e self) as [[[[[v|]|]|e'] s'] t]; cbn in *;
      try discriminate.
    intros [= <-]. left. apply Hh. reflexivity.
Qed.

Lemma transcribe_no_utterance audio (self : AudioConsumer) :
  Forall (fun a => is_utterance a = false) (transcribe audio self).2.
Proof.
  destruct (execute (stt self) audio) as [[s|]|e] eqn:He.
  - rewrite (transcribe_text self audio s He). repeat constructor.
  - unfold_transcribe. rewrite He. cbn. repeat constructor.
  - rewrite (transcribe_raises self audio e He).
    pose proof (handler_no_utterance e self) as Hh.
    destruct (transcribe_handler e self) as [[[[v|]|e'] s'] t]; cbn in *;
      constructor; auto.
    apply Forall_app. split; [exact Hh|repeat constructor].
Qed.

(** X4.  Every [utterance] event that [process] emits carries a list of
    exactly one text and the [lang] of the STT backend, and the text is
    normalized: not empty, with no white space around it and no upper-case
    letter (it is the stripped, lower-cased answer of the backend, or the
    pairing phrase). *)
Theorem utterance_carries_one_normalized_text
    (self : AudioConsumer) (audio : AudioData) (texts : list string)
    (l : string) :
  In (Emit (utterance texts l)) (process audio self).2 ->
  exists text, texts = [text] /\ l = lang (stt self) /\ normalized text.
Proof.
  destruct (Z.eq_dec (sample_rate audio * sample_width audio) 0) as [Hz|Hd].
  { destruct (process_zero_division self audio Hz) as (e & _ & ->).
    cbn. intros [H|[]]. discriminate. }
  rewrite (process_eq self audio Hd). cbn zeta.
  destruct (Qltb _ _).
  { cbn. intros [H|[H|[]]]; discriminate. }
  pose proof (transcribe_no_utterance audio self) as Hn.
  pose proof (transcribe_result audio self) as Hr.
  pose proof (keeps_transcribe audio self) as (_ & Hstt & _).
  assert (Hnot : ~ In (Emit (utterance texts l)) (transcribe audio self).2).
  { intros Hin. rewrite Forall_forall in Hn.
    specialize (Hn _ (proj2 (list_elem_of_In _ _) Hin)).
    discriminate. }
  destruct (transcribe audio self) as [[[[text|]|e] s'] t]; cbn in *.
  - intros [H|H]; [discriminate|]. apply in_app_or in H.
    destruct H as [H|H]; [contradiction|].
    destruct (PyStr.truthy text) eqn:Ht; [|destruct H].
    destruct H as [[= <- <-]|[]].
    exists text. split; [reflexivity|]. split; [congruence|].
    destruct (Hr text eq_refl) as [->|(s & _ & ->)].
    + repeat split. discriminate.
    + apply strip_lower_normalized, Ht.
  - intros [H|H]; [discriminate|contradiction].
  - intros [H|H]; [discriminate|contradiction].
Qed.

(** *** What gets out of the consumer *)




Lemma lstrip_blank s : blank s = true -> PyStr.lstrip s = "".
Proof.
  unfold blank. induction s as [|c r IH]; cbn; [reflexivity|].
  intros H. apply andb_prop in H as [Hc Hr]. rewrite Hc. exact (IH Hr).
Qed.

Lemma blank_lower s : blank (PyStr.lower s) = blank s.
Proof.
  unfold blank. induction s as [|c r IH]; cbn; [reflexivity|].
  rewrite is_space_lower_char, IH. reflexivity.
Qed.

(** X5.  An answer of the backend that holds no text is dropped.  For a clip
    of at least 0.5 s processed while awake: when [execute] returns a string
    of white space only (or the empty string), nothing follows the [wakeword]
    event, neither an [utterance] nor a failure signal; when it returns
    [None], the [lower()] call on it raises [AttributeError], which the last
    [except] clause reports as [speech.recognition.unknown]. *)
Theorem answer_without_text_is_dropped
    (self : AudioConsumer) (audio : AudioData) :
  sample_rate audio * sample_width audio <> 0 ->
  (1 # 2 <= inject_Z (Z.of_nat (length (frame_data audio))) /
            inject_Z (sample_rate audio * sample_width audio))%Q ->
  (forall s, execute (stt self) audio = Returns (Some s) ->
     blank s = true ->
     events (process audio self).2 = [wakeword (word self)]) /\
  (execute (stt self) audio = Returns None ->
   events (process audio self).2 =
     [wakeword (word self); speech_recognition_unknown]).
Proof.
  intros Hd Hlen. rewrite (process_eq self audio Hd). cbn zeta.
  rewrite (long_enough_passes _ Hlen). split.
  - intros s He Hb. rewrite (transcribe_text self audio s He). cbn zeta.
    unfold PyStr.strip. rewrite (lstrip_blank (PyStr.lower s)).
    + reflexivity.
    + rewrite blank_lower. exact Hb.
  - intros He. unfold_transcribe. rewrite He. reflexivity.
Qed.

Lemma answer_without_text_is_dropped_witness :
  let audio := Sample.clip 8 in
  events (process audio
            (Sample.a_consumer false [] (Returns (Some "  ")) false)).2 =
    [wakeword "hey mycroft"] /\
  events (process audio (Sample.a_consumer false [] (Returns None) false)).2 =
    [wakeword "hey mycroft"; speech_recognition_unknown].
Proof.
  assert (Hlen : (1 # 2 <= inject_Z (Z.of_nat (length (frame_data (Sample.clip 8)))) /
            inject_Z (sample_rate (Sample.clip 8) * sample_width (Sample.clip 8)))%Q)
    by (cbv; discriminate).
  split.
  - refine (proj1 (answer_without_text_is_dropped
             (Sample.a_consumer false [] (Returns (Some "  ")) false)
             (Sample.clip 8) _ Hlen) "  " eq_refl eq_refl). discriminate.
  - refine (proj2 (answer_without_text_is_dropped
             (Sample.a_consumer false [] (Returns None) false)
             (Sample.clip 8) _ Hlen) eq_refl). discriminate.
Defined.

Lemma utterance_carries_one_normalized_text_witness :
  let self := Sample.a_consumer false [] (Returns (Some "  Turn ON the Light ")) false in
  In (Emit (utterance ["turn on the light"] "en-us"))
     (process (Sample.clip 8) self).2 /\
  exists text, ["turn on the light"] = [text] /\ "en-us" = lang (stt self) /\
               normalized text.
Proof.
  assert (H : In (Emit (utterance ["turn on the light"] "en-us"))
                (process (Sample.clip 8)
                   (Sample.a_consumer false []
                      (Returns (Some "  Turn ON the Light ")) false)).2)
    by (vm_compute; auto 6).
  split; [exact H|].
  exact (utterance_carries_one_normalized_text _ _ _ _ H).
Defined.
(** ** The orchestrator *)

Section HotWordEngines.
Import Loop.
Variable create_hotword :
  string -> option (gmap string (gmap string pyval)) -> pyval -> HotWordEngine.
Variables (lang0 : pyval) (wakeup wakeword_rec : HotWordEngine).

Local Abbreviation engines_of := (create_hot_word_engines create_hotword lang0 wakeup wakeword_rec).
Local Abbreviation entry := (entry_of create_hotword lang0 wakeup wakeword_rec).
Local Abbreviation step := (engine_step create_hotword lang0 wakeup wakeword_rec).

Lemma engine_step_entry acc w d :
  step acc (w, d) =
    match entry w d with
    | Some e => inl (<[ w := e ]> acc)
    | None => if skipped wakeup wakeword_rec w d then inl acc
              else inr (KeyError "module")
    end.
Proof.
  unfold engine_step, entry_of.
  destruct (skipped wakeup wakeword_rec w d); [reflexivity|].
  destruct (d !! "module"); reflexivity.
Qed.

(** The only error is the missing ["module"] key. *)
Lemma engines_error items : forall acc err,
  (engines_of items acc).2 = Some err -> err = KeyError "module".
Proof.
  induction items as [|[w d] rest IH]; intros acc err; cbn [create_hot_word_engines].
  - discriminate.
  - rewrite engine_step_entry. destruct (entry w d).
    + apply IH.
    + destruct (skipped wakeup wakeword_rec w d); [apply IH|].
      cbn. congruence.
Qed.

Lemma engines_succeed_iff items : forall acc,
  (engines_of items acc).2 = None <->
  Forall (fun item => skipped wakeup wakeword_rec item.1 item.2 = false ->
                      is_Some (item.2 !! "module")) items.
Proof.
  induction items as [|[w d] rest IH]; intros acc; cbn [create_hot_word_engines].
  - split; [constructor|reflexivity].
  - rewrite engine_step_entry. unfold entry_of.
    destruct (skipped wakeup wakeword_rec w d) eqn:Hs.
    + rewrite IH. split.
      * intros H. constructor; [cbn; congruence|exact H].
      * intros H. inversion H; assumption.
    + destruct (d !! "module") eqn:Hm; cbn.
      * rewrite IH. split.
        -- intros H. constructor; [cbn; rewrite Hm; eauto|exact H].
        -- intros H. inversion H; assumption.
      * split; [discriminate|].
        intros H. inversion H as [|? ? H1 _]; subst. cbn in H1.
        destruct (H1 Hs) as [? Hx]. congruence.
Qed.

Lemma engines_lookup items : forall acc,
  NoDup items.*1 ->
  (engines_of items acc).2 = None ->
  forall w,
    (engines_of items acc).1 !! w =
      match (list_to_map items : gmap string (gmap string pyval)) !! w
            ≫= entry w with
      | Some e => Some e
      | None => acc !! w
      end.
Proof.
  induction items as [|[w0 d0] rest IH]; intros acc Hnd; cbn [create_hot_word_engines].
  - intros _ w. cbn. rewrite lookup_empty. reflexivity.
  - apply NoDup_cons in Hnd as [Hnotin Hnd]. cbn in Hnotin.
    rewrite engine_step_entry, list_to_map_cons.
    assert (Hrest : (list_to_map rest : gmap string (gmap string pyval)) !! w0 = None)
      by (apply not_elem_of_list_to_map; exact Hnotin).
    destruct (entry w0 d0) as [e|] eqn:He.
    + intros Hok w. rewrite (IH _ Hnd Hok w).
      destruct (decide (w = w0)) as [->|Hne].
      * rewrite Hrest, !lookup_insert_eq. cbn. rewrite He. reflexivity.
      * rewrite !lookup_insert_ne by congruence. reflexivity.
    + destruct (skipped wakeup wakeword_rec w0 d0); [|discriminate].
      intros Hok w. rewrite (IH _ Hnd Hok w).
      destruct (decide (w = w0)) as [->|Hne].
      * rewrite Hrest, lookup_insert_eq. cbn. rewrite He. reflexivity.
      * rewrite lookup_insert_ne by congruence. reflexivity.
Qed.

Lemma engines_origin items : forall acc w e,
  (engines_of items acc).1 !! w = Some e ->
  acc !! w = Some e \/ exists d, (w, d) ∈ items /\ entry w d = Some e.
Proof.
  induction items as [|[w0 d0] rest IH]; intros acc w e; cbn [create_hot_word_engines].
  - cbn. auto.
  - rewrite engine_step_entry.
    destruct (entry w0 d0) as [e0|] eqn:He.
    + intros H. destruct (IH _ _ _ H) as [Hacc|(d & Hin & Hd)].
      * destruct (decide (w = w0)) as [->|Hne].
        -- rewrite lookup_insert_eq in Hacc. injection Hacc as <-.
           right. exists d0. split; [left|exact He].
        -- rewrite lookup_insert_ne in Hacc by congruence. auto.
      * right. exists d. split; [right; exact Hin|exact Hd].
    + destruct (skipped wakeup wakeword_rec w0 d0).
      * intros H. destruct (IH _ _ _ H) as [Hacc|(d & Hin & Hd)]; [auto|].
        right. exists d. split; [right; exact Hin|exact Hd].
      * cbn. auto.
Qed.

End HotWordEngines.

Section Orchestrator.
Import Loop.
Variable create_hotword :
  string -> option (gmap string (gmap string pyval)) -> pyval -> HotWordEngine.

Lemma items_facts (table : gmap string (gmap string pyval)) items :
  items ≡ₚ map_to_list table ->
  NoDup items.*1 /\
  (list_to_map items : gmap string (gmap string pyval)) = table /\
  (forall w d, (w, d) ∈ items <-> table !! w = Some d).
Proof.
  intros Hp.
  assert (Hnd : NoDup items.*1)
    by (rewrite Hp; apply NoDup_fst_map_to_list).
  split; [exact Hnd|]. split.
  - rewrite (list_to_map_proper _ _ Hnd Hp). apply list_to_map_to_list.
  - intros w d. rewrite Hp. apply elem_of_map_to_list.
Qed.

(** X8.  Which hot-word engines get registered.  In whatever order the
    table is iterated, [create_hot_word_engines] fails only with
    [KeyError('module')], and it succeeds exactly when every word it does not
    skip has a ["module"] setting.  On success the registry holds an entry
    for exactly the configured words that are active and are neither the
    stand-up phrase nor the wake phrase, built from that word's settings.
    Even when the loop fails, whatever it registered so far is such a
    word. *)
Theorem hot_word_engines_registered
    (lang0 : pyval) (wakeup wakeword_rec : HotWordEngine)
    (table : gmap string (gmap string pyval))
    (items : list (string * gmap string pyval)) :
  items ≡ₚ map_to_list table ->
  let r := create_hot_word_engines create_hotword lang0 wakeup wakeword_rec
             items ∅ in
  (r.2 = None <->
   forall w d, table !! w = Some d ->
     skipped wakeup wakeword_rec w d = false -> is_Some (d !! "module")) /\
  (r.2 = None ->
   forall w, r.1 !! w =
             table !! w ≫= entry_of create_hotword lang0 wakeup wakeword_rec w) /\
  (forall w e, r.1 !! w = Some e ->
     w <> key_phrase wakeup /\ w <> key_phrase wakeword_rec /\
     exists d, table !! w = Some d /\
       truth (default (PBool false) (d !! "active")) = true /\
       entry_of create_hotword lang0 wakeup wakeword_rec w d = Some e) /\
  (forall err, r.2 = Some err -> err = KeyError "module").
Proof.
  intros Hp r. destruct (items_facts table items Hp) as (Hnd & Hmap & Hin).
  split; [|split; [|split]].
  - unfold r. rewrite engines_succeed_iff, Forall_forall. split.
    + intros H w d Hw. apply (H (w, d)). apply Hin, Hw.
    + intros H [w d] Hwd. apply H. apply Hin, Hwd.
  - intros Hok w. unfold r.
    rewrite (engines_lookup _ _ _ _ items ∅ Hnd Hok w), Hmap, lookup_empty.
    destruct (table !! w ≫= _); reflexivity.
  - intros w e Hw.
    destruct (engines_origin _ _ _ _ items ∅ w e Hw) as [H|(d & Hd & He)].
    { rewrite lookup_empty in H. discriminate. }
    apply Hin in Hd. unfold entry_of in He.
    destruct (skipped wakeup wakeword_rec w d) eqn:Hs; [discriminate|].
    unfold skipped in Hs.
    apply orb_false_elim in Hs as [Hs Hact].
    apply orb_false_elim in Hs as [H1 H2].
    apply String.eqb_neq in H1, H2. apply negb_false_iff in Hact.
    split; [exact H1|]. split; [exact H2|].
    exists d. split; [exact Hd|]. split; [exact Hact|].
    unfold entry_of. unfold skipped.
    apply String.eqb_neq in H1, H2. rewrite H1, H2, Hact. exact He.
  - intros err. apply engines_error.
Qed.

(** The settings [create_wake_word_recognizer] leaves for the wake word:
    those configured for it, or [{'module': 'pocketsphinx'}], with the
    phonemes and the threshold of the listener section written in when they
    are truthy. *)
Lemma wake_word_table (cc : config) (table : gmap string (gmap string pyval)) :
  hotwords cc = Some table ->
  let word := default "hey mycroft" (wake_word (listener cc)) in
  let d0 := default {[ "module" := PStr "pocketsphinx" ]} (table !! word) in
  let d1 := if truth (phonemes (listener cc))
            then <[ "phonemes" := phonemes (listener cc) ]> d0 else d0 in
  let d2 := if truth (threshold (listener cc))
            then <[ "threshold" := threshold (listener cc) ]> d1 else d1 in
  hotwords (create_wake_word_recognizer create_hotword cc).2 =
    Some (<[ word := d2 ]> table).
Proof.
  intros Ht. cbv zeta. unfold create_wake_word_recognizer.
  cbn [snd hotwords]. rewrite Ht.
  generalize (default "hey mycroft" (wake_word (listener cc))). intros word.
  cbn [default from_option]. unfold id. f_equal.
  destruct (table !! word) as [d|] eqn:Hw;
    destruct (truth (phonemes (listener cc)));
    destruct (truth (threshold (listener cc)));
    apply map_eq; intros w; destruct (decide (w = word)) as [->|Hne];
    repeat first [ rewrite lookup_alter_eq | rewrite lookup_alter_ne by congruence
                 | rewrite lookup_insert_eq | rewrite lookup_insert_ne by congruence
                 | rewrite Hw ];
    reflexivity.
Qed.

Lemma wake_word_setup_table_aux (cc : config)
    (table : gmap string (gmap string pyval)) :
  hotwords cc = Some table ->
  let word := default "hey mycroft" (wake_word (listener cc)) in
  exists d,
    hotwords (create_wake_word_recognizer create_hotword cc).2 =
      Some (<[ word := d ]> table) /\
    (table !! word = None ->
     forall k, k <> "phonemes" -> k <> "threshold" ->
       d !! k = ({[ "module" := PStr "pocketsphinx" ]} : gmap string pyval) !! k) /\
    (forall d0 k, table !! word = Some d0 ->
       k <> "phonemes" -> k <> "threshold" -> d !! k = d0 !! k).
Proof.
  intros Ht word. eexists. split; [exact (wake_word_table cc table Ht)|].
  fold word.
  destruct (truth (phonemes (listener cc)));
    destruct (truth (threshold (listener cc)));
    (split; [intros Hw k H1 H2|intros d0 k Hw H1 H2]);
    rewrite Hw; cbn [default from_option]; unfold id;
    repeat (rewrite lookup_insert_ne by congruence); reflexivity.
Qed.


Lemma entry_of_ext (lang0 : pyval) (wakeup wakeword_rec : HotWordEngine)
    (w : string) (d d' : gmap string pyval) :
  (forall k, k <> "phonemes" -> k <> "threshold" -> d' !! k = d !! k) ->
  skipped wakeup wakeword_rec w d' = skipped wakeup wakeword_rec w d /\
  entry_of create_hotword lang0 wakeup wakeword_rec w d' =
    entry_of create_hotword lang0 wakeup wakeword_rec w d.
Proof.
  intros H. unfold entry_of, skipped, dict_get.
  rewrite !H by discriminate. auto.
Qed.

Lemma wake_word_entry_same (lang0 : pyval) (wakeup wakeword_rec : HotWordEngine)
    (cc : config) (table table' : gmap string (gmap string pyval)) :
  hotwords cc = Some table ->
  hotwords (create_wake_word_recognizer create_hotword cc).2 = Some table' ->
  forall w,
    (forall d', table' !! w = Some d' ->
       skipped wakeup wakeword_rec w d' = true \/
       exists d, table !! w = Some d /\
         skipped wakeup wakeword_rec w d' = skipped wakeup wakeword_rec w d /\
         d' !! "module" = d !! "module") /\
    (forall d, table !! w = Some d ->
       exists d', table' !! w = Some d' /\
         skipped wakeup wakeword_rec w d' = skipped wakeup wakeword_rec w d /\
         d' !! "module" = d !! "module") /\
    table' !! w ≫= entry_of create_hotword lang0 wakeup wakeword_rec w =
      table !! w ≫= entry_of create_hotword lang0 wakeup wakeword_rec w.
Proof.
  intros Ht Ht' w.
  destruct (wake_word_setup_table_aux cc table Ht) as (d2 & Heq & Hnew & Hold).
  rewrite Heq in Ht'. injection Ht' as <-.
  set (word := default "hey mycroft" (wake_word (listener cc))) in *.
  destruct (decide (w = word)) as [->|Hne].
  2:{ rewrite lookup_insert_ne by congruence. split; [|split]; eauto. }
  rewrite lookup_insert_eq.
  destruct (table !! word) as [d0|] eqn:Hw.
  - destruct (entry_of_ext lang0 wakeup wakeword_rec word d0 d2) as [Hs He].
    { intros k H1 H2. apply (Hold d0 k eq_refl H1 H2). }
    split; [|split].
    + intros d' [= <-]. right. exists d0. split; [reflexivity|].
      split; [exact Hs|]. apply (Hold d0 "module" eq_refl); discriminate.
    + intros d [= <-]. exists d2. split; [reflexivity|].
      split; [exact Hs|]. apply (Hold d0 "module" eq_refl); discriminate.
    + cbn. exact He.
  - assert (Hsk : skipped wakeup wakeword_rec word d2 = true).
    { unfold skipped. rewrite (Hnew eq_refl "active") by discriminate.
      cbn. rewrite !orb_true_r. reflexivity. }
    split; [|split].
    + intros d' [= <-]. left. exact Hsk.
    + discriminate.
    + cbn. unfold entry_of. rewrite Hsk. reflexivity.
Qed.

(** X10.  Setting up the wake word does not change the hot-word engines.
    The table as [create_wake_word_recognizer] leaves it makes
    [create_hot_word_engines] succeed exactly when the table as configured
    does, and then they yield the same registry: the entry written for the
    wake word is never active by itself, and the keys written into an
    existing entry are not among those the loop reads. *)
Theorem wake_word_setup_keeps_hot_word_engines
    (lang0 : pyval) (wakeup wakeword_rec : HotWordEngine) (cc : config)
    (table table' : gmap string (gmap string pyval))
    (items items' : list (string * gmap string pyval)) :
  hotwords cc = Some table ->
  hotwords (create_wake_word_recognizer create_hotword cc).2 = Some table' ->
  items ≡ₚ map_to_list table ->
  items' ≡ₚ map_to_list table' ->
  let r := create_hot_word_engines create_hotword lang0 wakeup wakeword_rec
             items ∅ in
  let r' := create_hot_word_engines create_hotword lang0 wakeup wakeword_rec
              items' ∅ in
  (r'.2 = None <-> r.2 = None) /\ (r.2 = None -> r'.1 = r.1).
Proof.
  intros Ht Ht' Hp Hp' r r'.
  destruct (items_facts table items Hp) as (Hnd & Hmap & Hin).
  destruct (items_facts table' items' Hp') as (Hnd' & Hmap' & Hin').
  pose proof (wake_word_entry_same lang0 wakeup wakeword_rec cc table table'
                Ht Ht') as Hsame.
  assert (Hiff : r'.2 = None <-> r.2 = None).
  { unfold r, r'. rewrite !engines_succeed_iff, !Forall_forall. split.
    - intros H [w d] Hwd Hs. cbn in *. apply Hin in Hwd.
      destruct (Hsame w) as (_ & Hfwd & _).
      destruct (Hfwd d Hwd) as (d' & Hd' & Hsk & Hmod).
      rewrite <- Hmod. apply (H (w, d')); [apply Hin', Hd'|].
      cbn. congruence.
    - intros H [w d'] Hwd Hs. cbn in *. apply Hin' in Hwd.
      destruct (Hsame w) as (Hbwd & _ & _).
      destruct (Hbwd d' Hwd) as [Hsk|(d & Hd & Hsk & Hmod)]; [congruence|].
      rewrite Hmod. apply (H (w, d)); [apply Hin, Hd|].
      cbn. congruence. }
  split; [exact Hiff|].
  intros Hok. apply map_eq. intros w. unfold r, r'.
  rewrite (engines_lookup _ _ _ _ items ∅ Hnd Hok w).
  rewrite (engines_lookup _ _ _ _ items' ∅ Hnd' (proj2 Hiff Hok) w).
  rewrite Hmap, Hmap'. destruct (Hsame w) as (_ & _ & ->). reflexivity.
Qed.

Lemma load_config_mute_consistent items_of given (self : t) :
  0 <= RecognizerLoop.mute_calls (muting self) ->
  mute_consistent (_load_config create_hotword items_of given self).1.
Proof.
  intros H. unfold _load_config.
  destruct (create_wake_word_recognizer _ _) as [ww c1].
  destruct (create_hot_word_engines _ _ _ _ _ _) as [engines [err|]];
    eexists; cbn; (split; [reflexivity|]); split; [reflexivity|exact H
                                                  |reflexivity|exact H].
Qed.

Lemma perform_mute_consistent items_of (l : t) (c : call) :
  mute_consistent l -> mute_consistent (perform create_hotword items_of l c).
Proof.
  intros (m & Hm & Hmu & Hc). destruct c; cbn;
    try (exists m; cbn; auto; fail).
  - exists (RecognizerLoop.mic_mute m). cbn. rewrite Hm. cbn.
    split; [reflexivity|]. split; [|lia].
    symmetry. apply Z.ltb_lt. lia.
  - unfold RecognizerLoop.unmute.
    destruct (0 <? RecognizerLoop.mute_calls (muting l)) eqn:E;
      cbn [RecognizerLoop.mute_calls RecognizerLoop.microphone].
    + apply Z.ltb_lt in E.
      destruct (RecognizerLoop.mute_calls (muting l) - 1 <=? 0) eqn:E2.
      * rewrite Hm. eexists. cbn. split; [reflexivity|]. split; [reflexivity|lia].
      * apply Z.leb_gt in E2. exists m. cbn. split; [exact Hm|].
        split; [|lia]. rewrite Hmu. symmetry. apply Z.ltb_lt. lia.
    + apply Z.ltb_ge in E.
      replace (RecognizerLoop.mute_calls (muting l) <=? 0) with true
        by (symmetry; apply Z.leb_le; lia).
      rewrite Hm. eexists. cbn. split; [reflexivity|]. split; [reflexivity|lia].
  - unfold RecognizerLoop.force_unmute, RecognizerLoop.unmute. cbn.
    rewrite Hm. eexists. cbn. split; [reflexivity|]. split; [reflexivity|lia].
  - unfold reload.
    pose proof (load_config_mute_consistent items_of None (stop l)) as H.
    destruct (_load_config create_hotword items_of None (stop l))
      as [l' [e|]]; cbn in *.
    + apply H. exact Hc.
    + destruct (H Hc) as (m' & ? & ? & ?). exists m'. cbn. auto.
Qed.

(** X6.  After any sequence of [mute], [unmute], [force_unmute], [sleep],
    [awaken], [stop], [start_async] and [reload] calls on a loop built by
    [__init__] (with any configuration, whether or not the hot-word setup
    failed), [is_muted()] is true exactly when [mute_calls] is positive:
    [reload] rebuilds the microphone muted according to the depth. *)
Theorem muted_iff_depth_positive items_of (given : option config)
    (calls : list call) :
  let l := fold_left (perform create_hotword items_of) calls
             (__init__ create_hotword items_of given).1 in
  RecognizerLoop.is_muted (muting l) =
    (0 <? RecognizerLoop.mute_calls (muting l)).
Proof.
  intros l.
  assert (H : mute_consistent l).
  { subst l.
    assert (H0 : mute_consistent (__init__ create_hotword items_of given).1)
      by (apply load_config_mute_consistent; cbn; lia).
    revert H0. generalize (__init__ create_hotword items_of given).1.
    induction calls as [|c calls IH]; intros l0 H0; cbn; [exact H0|].
    apply IH, perform_mute_consistent, H0. }
  destruct H as (m & Hm & Hmu & _). unfold RecognizerLoop.is_muted.
  rewrite Hm. exact Hmu.
Qed.


End Orchestrator.

Lemma hot_word_engines_registered_witness :
  let r := Loop.create_hot_word_engines SampleConfig.factory
             (Loop.PStr "en-us")
             (SampleConfig.factory "wake up" None Loop.PNone)
             (SampleConfig.factory "hey mycroft" None Loop.PNone)
             (map_to_list SampleConfig.table) ∅ in
  map_to_list SampleConfig.table ≡ₚ map_to_list SampleConfig.table /\
  r.2 = None /\
  r.1 !! "hey mycroft" = None /\
  r.1 !! "good night" = None /\
  Loop.hw_engine_type <$> r.1 !! "thank you" = Some (Loop.PStr "snowboy").
Proof.
  split; [reflexivity|].
  destruct (hot_word_engines_registered SampleConfig.factory
              (Loop.PStr "en-us")
              (SampleConfig.factory "wake up" None Loop.PNone)
              (SampleConfig.factory "hey mycroft" None Loop.PNone)
              SampleConfig.table (map_to_list SampleConfig.table)
              (reflexivity _)) as (_ & Hlook & _ & _).
  assert (Hok : (Loop.create_hot_word_engines SampleConfig.factory
             (Loop.PStr "en-us")
             (SampleConfig.factory "wake up" None Loop.PNone)
             (SampleConfig.factory "hey mycroft" None Loop.PNone)
             (map_to_list SampleConfig.table) ∅).2 = None)
    by (vm_compute; reflexivity).
  split; [exact Hok|]. cbv zeta. rewrite !(Hlook Hok).
  vm_compute. auto.
Defined.

Lemma wake_word_setup_keeps_hot_word_engines_witness :
  let table' :=
    default ∅ (Loop.hotwords
                 (Loop.create_wake_word_recognizer SampleConfig.factory
                    SampleConfig.cc).2) in
  let engines t :=
    Loop.create_hot_word_engines SampleConfig.factory (Loop.PStr "en-us")
      (SampleConfig.factory "wake up" None Loop.PNone)
      (SampleConfig.factory "hey mycroft" None Loop.PNone)
      (map_to_list t) ∅ in
  Loop.hotwords SampleConfig.cc = Some SampleConfig.table /\
  table' !! "hey mycroft" <> SampleConfig.table !! "hey mycroft" /\
  (engines SampleConfig.table).2 = None /\
  (engines table').1 = (engines SampleConfig.table).1.
Proof.
  cbv zeta. split; [reflexivity|].
  pose proof (wake_word_table SampleConfig.factory SampleConfig.cc
                SampleConfig.table eq_refl) as Hafter.
  cbv zeta in Hafter.
  destruct (Loop.hotwords
              (Loop.create_wake_word_recognizer SampleConfig.factory
                 SampleConfig.cc).2) as [table'|] eqn:E; [|discriminate].
  cbn [default from_option]. unfold id. split.
  { injection Hafter as ->. rewrite lookup_insert_eq.
    intros H. apply (f_equal (fun d => d ≫= (.!! "phonemes"))) in H.
    vm_compute in H. discriminate. }
  assert (Hok : (Loop.create_hot_word_engines SampleConfig.factory
             (Loop.PStr "en-us")
             (SampleConfig.factory "wake up" None Loop.PNone)
             (SampleConfig.factory "hey mycroft" None Loop.PNone)
             (map_to_list SampleConfig.table) ∅).2 = None)
    by (vm_compute; reflexivity).
  split; [exact Hok|].
  exact (proj2 (wake_word_setup_keeps_hot_word_engines SampleConfig.factory
             (Loop.PStr "en-us")
             (SampleConfig.factory "wake up" None Loop.PNone)
             (SampleConfig.factory "hey mycroft" None Loop.PNone)
             SampleConfig.cc SampleConfig.table table'
             (map_to_list SampleConfig.table) (map_to_list table') eq_refl E
             (reflexivity _) (reflexivity _)) Hok).
Defined.


(** ** The queue between producer and consumer *)

(** X11.  Between the threads, clips keep their arrival order.  After any
    interleaving of producer puts, hotword events, [sleep()]/[awaken()] calls
    and consumer iterations, the entries ever queued split into those the
    consumer took, oldest first, and those still waiting; and the clips the
    STT backend was called on are among the taken ones, in arrival order. *)
Theorem clips_keep_arrival_order (c0 : AudioConsumer) (ins : list input) :
  exists taken,
    queue c0 ++ puts ins = taken ++ queue (consumer (exec (started c0) ins)) /\
    stt_calls (seen (exec (started c0) ins)) `sublist_of` clips taken.
Proof.
  induction ins as [|i ins (taken & Hq & Hs)] using rev_ind.
  - exists []. cbn. rewrite app_nil_r. split; [reflexivity|constructor].
  - rewrite exec_snoc. unfold puts in *. rewrite omap_app.
    set (w := exec (started c0) ins) in *.
    destruct i; cbn [omap list_omap step]; rewrite ?app_nil_r;
      try (exists taken; split; assumption).
    + exists taken. cbn. rewrite app_assoc, Hq, app_assoc.
      split; [reflexivity|exact Hs].
    + destruct (alive w); [|exists taken; split; assumption].
      destruct (running (state (consumer w)));
        [|exists taken; split; assumption].
      destruct (read_takes_head (consumer w)) as (k & _ & Hk & Hc).
      exists (taken ++ take k (queue (consumer w))).
      assert (Hsplit : queue c0 ++ omap
                (fun i => match i with put audio => Some audio | _ => None end)
                ins =
              (taken ++ take k (queue (consumer w))) ++
              queue (read (consumer w)).1.2).
      { rewrite Hk, <- app_assoc, take_drop. exact Hq. }
      assert (Hsub : stt_calls (seen w ++ (read (consumer w)).2) `sublist_of`
                     clips (taken ++ take k (queue (consumer w)))).
      { rewrite stt_calls_app. unfold clips in *. rewrite omap_app.
        apply sublist_app; assumption. }
      destruct (read (consumer w)) as [[[u|e] c'] t]; cbn in *;
        split; assumption.
Qed.

(** ** The producer *)

Lemma producer_loop_survived heard :
  AudioProducer.queued (AudioProducer.loop heard).1 =
    omap (fun o => match o with Returns a => Some a | Raises _ => None end)
         (AudioProducer.survived heard) /\
  AudioProducer.reported (AudioProducer.loop heard).1 =
    omap (fun o => match o with Raises e => Some e | Returns _ => None end)
         (AudioProducer.survived heard) /\
  ((AudioProducer.loop heard).2 = None <->
   AudioProducer.survived heard = heard).
Proof.
  unfold AudioProducer.queued, AudioProducer.reported.
  induction heard as [|[a|e] rest (IH1 & IH2 & IH3)];
    cbn [AudioProducer.loop AudioProducer.survived].
  - repeat split.
  - destruct (AudioProducer.loop rest) as [t r]. cbn [fst snd] in *.
    cbn [omap list_omap]. rewrite IH1, IH2, IH3.
    repeat split; congruence.
  - destruct (isinstance e IOError).
    + destruct (AudioProducer.loop rest) as [t r]. cbn [fst snd] in *.
      cbn [omap list_omap]. rewrite IH1, IH2, IH3.
      repeat split; congruence.
    + cbn. repeat split; discriminate.
Qed.

(** X12.  The producer queues what it hears, in order, and an [IOError] does
    not end it.  [run] puts on the queue exactly the clips [listen] returned
    before the first exception that is not an [IOError], in the order heard,
    and reports exactly the [IOError]s met until then, each with one
    [ioerror] event.  It ends without an exception exactly when every
    exception of [listen] was an [IOError], and however it ends the
    microphone is released last. *)
Theorem producer_queues_what_it_hears
    (heard : list (outcome (option AudioData))) :
  AudioProducer.queued (AudioProducer.run heard).1 =
    omap (fun o => match o with Returns a => Some a | Raises _ => None end)
         (AudioProducer.survived heard) /\
  AudioProducer.reported (AudioProducer.run heard).1 =
    omap (fun o => match o with Raises e => Some e | Returns _ => None end)
         (AudioProducer.survived heard) /\
  ((AudioProducer.run heard).2 = None <->
   Forall (fun o => match o with
                    | Raises e => isinstance e IOError = true
                    | Returns _ => True
                    end) heard) /\
  last (AudioProducer.run heard).1 = Some AudioProducer.Mic_exit.
Proof.
  destruct (producer_loop_survived heard) as (H1 & H2 & H3).
  unfold AudioProducer.run.
  destruct (AudioProducer.loop heard) as [t r]. cbn [fst snd] in *.
  split; [|split; [|split]].
  - unfold AudioProducer.queued in *. cbn. rewrite omap_app, H1. cbn.
    apply app_nil_r.
  - unfold AudioProducer.reported in *. cbn. rewrite omap_app, H2. cbn.
    apply app_nil_r.
  - rewrite H3. clear.
    induction heard as [|[a|e] rest IH]; cbn [AudioProducer.survived].
    + split; [constructor|reflexivity].
    + split.
      * intros [= H]. constructor; [exact I|apply IH, H].
      * intros H. inversion H; subst. f_equal. apply IH. assumption.
    + destruct (isinstance e IOError) eqn:E.
      * split.
        -- intros [= H]. constructor; [exact E|apply IH, H].
        -- intros H. inversion H; subst. f_equal. apply IH. assumption.
      * split; [discriminate|].
        intros H. inversion H as [|? ? H1 _]; subst. congruence.
  - change (last ([AudioProducer.Mic_enter;
                   AudioProducer.Adjust_for_ambient_noise] ++
                  t ++ [AudioProducer.Mic_exit]) =
            Some AudioProducer.Mic_exit).
    rewrite !last_app. reflexivity.
Qed.

(** ** The Twitch bridge *)

Section TwitchBridge.
Import Twitch.

Lemma sapp_assoc (a b c : string) : (a +:+ b) +:+ c = a +:+ (b +:+ c).
Proof.
  induction a as [|x a IH]; [reflexivity|].
  change (String x ((a +:+ b) +:+ c) = String x (a +:+ (b +:+ c))).
  rewrite IH. reflexivity.
Qed.

Lemma sapp_nil_r (a : string) : a +:+ "" = a.
Proof.
  induction a as [|x a IH]; [reflexivity|].
  change (String x (a +:+ "") = String x a). rewrite IH. reflexivity.
Qed.

Lemma split_on_nonempty sep s : split_on sep s <> [].
Proof.
  destruct s as [|c r]; cbn; [discriminate|].
  destruct (Ascii.eqb c sep); [discriminate|].
  destruct (split_on sep r); discriminate.
Qed.

Lemma split_on_cons sep c r :
  split_on sep (String c r) =
    if Ascii.eqb c sep then "" :: split_on sep r
    else String c (hd "" (split_on sep r)) :: tl (split_on sep r).
Proof.
  cbn. destruct (Ascii.eqb c sep); [reflexivity|].
  pose proof (split_on_nonempty sep r).
  destruct (split_on sep r); [contradiction|reflexivity].
Qed.

(** Splitting a text that arrives in two parts: the complete pieces of the
    first part, then the pieces of its last, unfinished piece followed by the
    second part. *)
Lemma split_on_app sep (a b : string) :
  split_on sep (a +:+ b) =
    removelast (split_on sep a) ++
    split_on sep (List.last (split_on sep a) "" +:+ b).
Proof.
  induction a as [|c r IH].
  - reflexivity.
  - change (String c r +:+ b) with (String c (r +:+ b)).
    rewrite !split_on_cons, IH. clear IH.
    pose proof (split_on_nonempty sep r) as Hne.
    destruct (Ascii.eqb c sep) eqn:E.
    + destruct (split_on sep r) as [|h t]; [contradiction|]. reflexivity.
    + destruct (split_on sep r) as [|h [|x t]]; [contradiction| |].
      * cbn [removelast List.last hd tl app].
        change (String c h +:+ b) with (String c (h +:+ b)).
        rewrite split_on_cons, E. reflexivity.
      * reflexivity.
Qed.

Lemma handle_lines_app (m : bool) (l1 l2 : list string) :
  handle_lines m (l1 ++ l2) =
    match handle_lines m l1 with
    | (Returns m', t) =>
        let '(r, t') := handle_lines m' l2 in (r, t ++ t')
    | (Raises e, t) => (Raises e, t)
    end.
Proof.
  revert m. induction l1 as [|line l1 IH]; intros m; cbn.
  - destruct (handle_lines m l2) as [r t]. reflexivity.
  - destruct (handle_line m line) as [[m'|e] t]; [|reflexivity].
    rewrite IH.
    destruct (handle_lines m' l1) as [[m''|e] t1]; [|reflexivity].
    destruct (handle_lines m'' l2) as [r t2]. rewrite app_assoc. reflexivity.
Qed.

Lemma last_app_nonempty {A} (l l' : list A) d :
  l' <> [] -> List.last (l ++ l') d = List.last l' d.
Proof.
  intros H. induction l as [|x l IH]; [reflexivity|].
  cbn [app List.last]. destruct (l ++ l') eqn:E; [|exact IH].
  apply app_eq_nil in E as [_ ?]. contradiction.
Qed.

(** X13.  The reading thread depends on the bytes received, not on how
    [recv] cuts them: receiving [c1] and then [c2] leads to the same actions,
    the same buffer and flag, or the same exception, as receiving them in one
    piece. *)
Theorem twitch_loop_ignores_chunking
    (readbuffer : string) (MODT : bool) (c1 c2 : string)
    (rest : list string) :
  twitch_loop readbuffer MODT (c1 :: c2 :: rest) =
  twitch_loop readbuffer MODT ((c1 +:+ c2) :: rest).
Proof.
  cbn [twitch_loop].
  rewrite <- sapp_assoc, (split_on_app LF (readbuffer +:+ c1) c2).
  set (first := split_on LF (readbuffer +:+ c1)).
  set (second := split_on LF (List.last first "" +:+ c2)).
  assert (Hne : second <> []) by apply split_on_nonempty.
  rewrite (removelast_app (removelast first) Hne),
    (last_app_nonempty (removelast first) second "" Hne).
  rewrite handle_lines_app.
  destruct (handle_lines MODT (removelast first)) as [[m|e] t1]; [|reflexivity].
  destruct (handle_lines m (removelast second)) as [[m'|e] t2]; [|reflexivity].
  destruct (twitch_loop (List.last second "") m' rest) as [r t3].
  rewrite app_assoc. reflexivity.
Qed.

Lemma join_split (sep : ascii) (s : string) :
  String.concat (String sep "") (split_on sep s) = s.
Proof.
  induction s as [|c r IH]; [reflexivity|].
  rewrite split_on_cons.
  pose proof (split_on_nonempty sep r) as Hne.
  destruct (Ascii.eqb c sep) eqn:E.
  - apply Ascii.eqb_eq in E as ->.
    destruct (split_on sep r) as [|h t]; [contradiction|].
    change (String sep (String.concat (String sep "") (h :: t)) =
            String sep r).
    rewrite IH. reflexivity.
  - destruct (split_on sep r) as [|h [|x t]]; [contradiction| |].
    + cbn in *. rewrite IH. reflexivity.
    + cbn [hd tl]. cbn [String.concat] in *.
      change (String c h +:+ ?y) with (String c (h +:+ y)).
      rewrite IH. reflexivity.
Qed.

(** X14.  Nothing of the stream is lost or cut wrongly between the lines
    and the buffer: after a [recv], the lines handled and the buffer kept
    for the next one, joined by the separator again, are the old buffer
    followed by the new chunk, and none of them holds a separator. *)
Theorem split_then_join (sep : ascii) (readbuffer chunk : string) :
  let temp := split_on sep (readbuffer +:+ chunk) in
  String.concat (String sep "") (removelast temp ++ [List.last temp ""]) =
    readbuffer +:+ chunk /\
  Forall (fun line => contains (String sep "") line = false) temp.
Proof.
  intros temp. split.
  - unfold temp.
    rewrite <- app_removelast_last by apply split_on_nonempty.
    apply join_split.
  - unfold temp. generalize (readbuffer +:+ chunk). clear. intros s.
    induction s as [|c r IH]; [repeat constructor|].
    rewrite split_on_cons.
    pose proof (split_on_nonempty sep r) as Hne.
    destruct (Ascii.eqb c sep) eqn:E.
    + constructor; [reflexivity|exact IH].
    + destruct (split_on sep r) as [|h t]; [contradiction|].
      inversion IH as [|? ? Hh Ht]; subst. cbn [hd tl].
      constructor; [|exact Ht].
      cbn [contains String.prefix]. rewrite Hh.
      destruct (ascii_dec sep c) as [->|]; [|reflexivity].
      rewrite Ascii.eqb_refl in E. discriminate.
Qed.

Lemma one_char_is_not_ping (c : ascii) :
  String.eqb (String c "") "PING" = false.
Proof.
  change (String.eqb (String c "") "PING")
    with (if Ascii.eqb c "P" then String.eqb "" "ING" else false).
  destruct (Ascii.eqb c "P"); reflexivity.
Qed.

Lemma handle_line_no_socket_send (MODT : bool) (line : string) :
  Forall (fun a => is_socket_send a = false) (handle_line MODT line).2.
Proof.
  destruct line as [|c0 rest]; [constructor|].
  unfold handle_line. rewrite one_char_is_not_ping.
  destruct (nth_error _ 1) as [part1|]; [|constructor].
  destruct (negb _ && negb _ && negb _); [|constructor].
  constructor; [reflexivity|].
  destruct (contains _ _); [|constructor].
  destruct MODT; repeat constructor.
Qed.

(** X15.  The reading thread never writes to the IRC socket: the test
    [line[0] == "PING"] compares one character with a word of four, so the
    branch that answers [PONG] is never taken, whatever is received. *)
Theorem twitch_loop_never_answers_ping
    (readbuffer : string) (MODT : bool) (received : list string) :
  Forall (fun a => is_socket_send a = false)
         (twitch_loop readbuffer MODT received).2.
Proof.
  assert (Hlines : forall lines m,
            Forall (fun a => is_socket_send a = false)
                   (handle_lines m lines).2).
  { induction lines as [|line lines IH]; intros m; cbn; [constructor|].
    pose proof (handle_line_no_socket_send m line) as H.
    destruct (handle_line m line) as [[m'|e] t]; [|exact H].
    specialize (IH m'). destruct (handle_lines m' lines) as [r t'].
    apply Forall_app. split; assumption. }
  revert readbuffer MODT.
  induction received as [|chunk rest IH]; intros readbuffer MODT;
    cbn [twitch_loop]; [constructor|].
  pose proof (Hlines (removelast (split_on LF (readbuffer +:+ chunk))) MODT)
    as H.
  destruct (handle_lines MODT _) as [[m|e] t]; [|exact H].
  specialize (IH (List.last (split_on LF (readbuffer +:+ chunk)) "") m).
  destruct (twitch_loop _ m rest) as [r t'].
  apply Forall_app. split; assumption.
Qed.

(** *** Substrings *)

Lemma prefix_app (n a b : string) :
  String.prefix n a = true -> String.prefix n (a +:+ b) = true.
Proof.
  revert a. induction n as [|x n IH]; intros a H.
  - destruct (a +:+ b); reflexivity.
  - destruct a as [|y a]; [discriminate|].
    change (String y a +:+ b) with (String y (a +:+ b)).
    cbn [String.prefix] in *. destruct (ascii_dec x y); [|discriminate].
    apply IH, H.
Qed.

Lemma contains_app_l (n a b : string) :
  contains n a = true -> contains n (a +:+ b) = true.
Proof.
  induction a as [|y a IH]; intros H.
  - cbn [contains] in H. rewrite orb_false_r in H.
    destruct n; [|discriminate]. destruct b; reflexivity.
  - change (String y a +:+ b) with (String y (a +:+ b)).
    cbn [contains] in *. apply orb_true_iff in H as [H|H].
    + change (String y (a +:+ b)) with (String y a +:+ b).
      rewrite (prefix_app _ _ b H). reflexivity.
    + rewrite (IH H). apply orb_true_r.
Qed.

Lemma contains_app_r (n a b : string) :
  contains n b = true -> contains n (a +:+ b) = true.
Proof.
  intros H. induction a as [|y a IH]; [exact H|].
  change (String y a +:+ b) with (String y (a +:+ b)).
  cbn [contains]. rewrite IH. apply orb_true_r.
Qed.

Lemma contains_inside (n pre x post : string) :
  contains n x = true -> contains n (pre +:+ x +:+ post) = true.
Proof. intros H. apply contains_app_r, contains_app_l, H. Qed.

Lemma concat_inside (sp : string) (l : list string) (p : string) :
  In p l -> exists pre post, String.concat sp l = pre +:+ p +:+ post.
Proof.
  induction l as [|x [|y xs] IH].
  - intros [].
  - intros [<-|[]]. exists "", "". cbn. rewrite sapp_nil_r. reflexivity.
  - intros [<-|H].
    + exists "", (sp +:+ String.concat sp (y :: xs)). reflexivity.
    + destruct (IH H) as (pre & post & E).
      exists (x +:+ sp +:+ pre), post.
      change (String.concat sp (x :: y :: xs))
        with (x +:+ sp +:+ String.concat sp (y :: xs)).
      rewrite E, !sapp_assoc. reflexivity.
Qed.

Lemma concat_last (sp : string) (l : list string) :
  l <> [] -> exists pre, String.concat sp l = pre +:+ List.last l "".
Proof.
  induction l as [|x [|y xs] IH]; intros Hne.
  - contradiction.
  - exists "". reflexivity.
  - destruct IH as [pre E]; [discriminate|].
    exists (x +:+ sp +:+ pre).
    change (String.concat sp (x :: y :: xs))
      with (x +:+ sp +:+ String.concat sp (y :: xs)).
    change (List.last (x :: y :: xs) "") with (List.last (y :: xs) "").
    rewrite E, !sapp_assoc. reflexivity.
Qed.

(** A piece of a split lies inside the text, and the last piece ends it. *)
Lemma split_on_inside sep (s p : string) :
  In p (split_on sep s) -> exists pre post, s = pre +:+ p +:+ post.
Proof.
  intros H.
  destruct (concat_inside (String sep "") _ p H) as (pre & post & E).
  rewrite join_split in E. eauto.
Qed.

Lemma split_on_last sep (s : string) :
  exists pre, s = pre +:+ List.last (split_on sep s) "".
Proof.
  destruct (concat_last (String sep "") (split_on sep s)
              (split_on_nonempty sep s)) as (pre & E).
  rewrite join_split in E. eauto.
Qed.

Lemma contains_false_inside (n s p : string) :
  contains n s = false -> (exists pre post, s = pre +:+ p +:+ post) ->
  contains n p = false.
Proof.
  intros Hs (pre & post & ->). destruct (contains n p) eqn:E; [|reflexivity].
  rewrite (contains_inside n pre p post E) in Hs. discriminate.
Qed.

Lemma handle_line_before_names (line : string) :
  contains "End of /NAMES list" line = false ->
  ((handle_line false line).1 = Returns false \/
   exists e, (handle_line false line).1 = Raises e) /\
  Forall (fun a => is_send_message a = false) (handle_line false line).2.
Proof.
  intros Hline. destruct line as [|c0 rest]; [split; [eauto|constructor]|].
  unfold handle_line. rewrite one_char_is_not_ping.
  set (parts := split_on ":" (String c0 rest)).
  assert (Hparts : existsb (contains "End of /NAMES list") parts = false).
  { destruct (existsb _ parts) eqn:E; [|reflexivity].
    apply existsb_exists in E as (p & Hin & Hp).
    rewrite (contains_false_inside _ _ p Hline (split_on_inside _ _ _ Hin))
      in Hp. discriminate. }
  destruct (nth_error parts 1) as [part1|]; [|split; [eauto|constructor]].
  destruct (negb _ && negb _ && negb _); [|split; [auto|constructor]].
  rewrite Hparts. split; [auto|].
  cbn [snd]. constructor; [reflexivity|].
  destruct (contains ("@" +:+ NICK) _); constructor.
Qed.

Lemma handle_lines_before_names (lines : list string) :
  Forall (fun line => contains "End of /NAMES list" line = false) lines ->
  ((handle_lines false lines).1 = Returns false \/
   exists e, (handle_lines false lines).1 = Raises e) /\
  Forall (fun a => is_send_message a = false) (handle_lines false lines).2.
Proof.
  induction lines as [|line lines IH]; intros H; cbn [handle_lines].
  - split; [auto|constructor].
  - inversion H as [|? ? Hl Hr]; subst.
    destruct (handle_line_before_names line Hl) as [[Hm|[e He]] Ht].
    + destruct (handle_line false line) as [[m|e] t]; cbn in *;
        [|discriminate].
      injection Hm as ->. destruct (IH Hr) as [Hres Ht'].
      destruct (handle_lines false lines) as [r t']. cbn in *.
      split; [exact Hres|]. apply Forall_app. split; assumption.
    + destruct (handle_line false line) as [[m|e'] t]; cbn in *;
        [discriminate|].
      split; [eauto|exact Ht].
Qed.

(** X16.  Nothing is forwarded before the names list has ended.  Starting
    with [MODT] false, as long as the bytes received so far (after the
    buffer) do not hold ["End of /NAMES list"], the thread sends no message
    to the server, whoever is mentioned. *)
Theorem nothing_forwarded_before_names_end
    (readbuffer : string) (received : list string) :
  contains "End of /NAMES list"
    (readbuffer +:+ fold_right String.append "" received) = false ->
  Forall (fun a => is_send_message a = false)
         (twitch_loop readbuffer false received).2.
Proof.
  revert readbuffer.
  induction received as [|chunk rest IH]; intros readbuffer Hs;
    cbn [twitch_loop]; [constructor|].
  cbn [fold_right] in Hs. rewrite <- sapp_assoc in Hs.
  set (s := readbuffer +:+ chunk) in *.
  assert (Hnow : contains "End of /NAMES list" s = false).
  { destruct (contains _ s) eqn:E; [|reflexivity].
    rewrite (contains_app_l _ _ _ E) in Hs. discriminate. }
  assert (Hlines : Forall (fun line => contains "End of /NAMES list" line = false)
                     (removelast (split_on LF s))).
  { apply List.Forall_forall. intros line Hin.
    apply (contains_false_inside _ s line Hnow).
    apply (split_on_inside LF).
    rewrite (app_removelast_last "" (split_on_nonempty LF s)).
    apply in_or_app. left. exact Hin. }
  destruct (handle_lines_before_names _ Hlines) as [[Hm|[e He]] Ht].
  - destruct (handle_lines false _) as [[m|e] t]; cbn in *; [|discriminate].
    injection Hm as ->.
    assert (Hnext : contains "End of /NAMES list"
                      (List.last (split_on LF s) "" +:+
                       fold_right String.append "" rest) = false).
    { destruct (split_on_last LF s) as [pre E].
      set (next := List.last (split_on LF s) "" +:+
                   fold_right String.append "" rest) in *.
      destruct (contains "End of /NAMES list" next) eqn:Ec; [|reflexivity].
      assert (Hwhole : s +:+ fold_right String.append "" rest = pre +:+ next)
        by (rewrite E at 1; apply sapp_assoc).
      rewrite Hwhole, (contains_app_r _ pre _ Ec) in Hs. discriminate. }
    specialize (IH _ Hnext).
    destruct (twitch_loop _ false rest) as [r t'].
    apply Forall_app. split; assumption.
  - destruct (handle_lines false _) as [[m|e'] t]; cbn in *; [discriminate|].
    exact Ht.
Qed.



Lemma nothing_forwarded_before_names_end_witness :
  let received :=
    [":nick!nick@nick.tmi.twitch.tv PRIVMSG #jarbasai :hi @jarb";
     "asai" +:+ CRLF] in
  contains "End of /NAMES list"
    ("" +:+ fold_right String.append "" received) = false /\
  Forall (fun a => is_send_message a = false)
         (twitch_loop "" false received).2.
Proof.
  split; [reflexivity|].
  apply (nothing_forwarded_before_names_end ""
           [":nick!nick@nick.tmi.twitch.tv PRIVMSG #jarbasai :hi @jarb";
            "asai" +:+ CRLF]).
  reflexivity.
Defined.

(** The same mention, once the names list has ended, is forwarded with the
    mention removed and the nick of the sender. *)
Example mention_forwarded_after_names_end :
  (twitch_loop "" false
     [":tmi.twitch.tv 366 jarbasai #jarbasai :End of /NAMES list" +:+ CRLF;
      ":nick!nick@nick.tmi.twitch.tv PRIVMSG #jarbasai :hi @jarb";
      "asai" +:+ CRLF]).2 =
    [Print_message "End of /NAMES list"; Print_message "hi @jarbasai";
     Send_message "hi " "nick"].
Proof. reflexivity. Qed.

(** A keep-alive line is handled like any other line. *)
Example ping_line_is_not_answered :
  handle_line true ("PING :tmi.twitch.tv" +:+ String CR "") =
    (Returns true, [Print_message ""]).
Proof. reflexivity. Qed.

End TwitchBridge.
